(** * file-unicode-normalizer: a model of [main.py] and its properties

    [main.py] reads a file as UTF-8 text, applies
    [unicodedata.normalize] and writes the result as UTF-8 text.  The
    development below embeds

    - the strict UTF-8 codec that [open(..., encoding='utf-8')] selects,
    - the newline translation of Python's text mode,
    - the normalization algorithm of Unicode Standard Annex 15 over a
      character database given by its three tables,
    - a file system of directories and regular files, the exceptions the
      program raises and catches, the logging calls it makes,
    - [normalize_unicode], [setup_argparse] and [main],

    and proves the properties of the specification about them. *)

From Stdlib Require Import ZArith Lia List Bool String.
From stdpp Require Import base tactics option list strings gmap.

Local Open Scope Z_scope.

(** ** Strict UTF-8 *)

Module UTF8.

(** A byte is a [Z] in [0, 256); a code point is a [Z] in [0, 0x110000). *)

Definition is_surrogate (c : Z) : bool := (0xD800 <=? c) && (c <? 0xE000).

(** The code points a strict encoder accepts. *)
Definition is_scalar (c : Z) : bool :=
  (0 <=? c) && (c <? 0x110000) && negb (is_surrogate c).

Definition is_cont (b : Z) : bool := (0x80 <=? b) && (b <? 0xC0).

Definition in_range (lo hi b : Z) : bool := (lo <=? b) && (b <=? hi).

(** [str.encode('utf-8')] on one code point; [None] is UnicodeEncodeError. *)
Definition encode_char (c : Z) : option (list Z) :=
  if negb (is_scalar c) then None
  else if c <? 0x80 then Some [c]
  else if c <? 0x800 then Some [0xC0 + c / 64; 0x80 + c mod 64]
  else if c <? 0x10000 then
    Some [0xE0 + c / 4096; 0x80 + (c / 64) mod 64; 0x80 + c mod 64]
  else
    Some [0xF0 + c / 262144; 0x80 + (c / 4096) mod 64;
          0x80 + (c / 64) mod 64; 0x80 + c mod 64].

Fixpoint encode (s : list Z) : option (list Z) :=
  match s with
  | [] => Some []
  | c :: s' =>
      match encode_char c, encode s' with
      | Some bs, Some r => Some (bs ++ r)
      | _, _ => None
      end
  end.

(** [bytes.decode('utf-8')] with [errors='strict']: shortest forms only,
    no surrogates, nothing above U+10FFFF; [None] is UnicodeDecodeError. *)
Fixpoint decode (bs : list Z) : option (list Z) :=
  match bs with
  | [] => Some []
  | b0 :: r0 =>
      if in_range 0 0x7F b0 then cons b0 <$> decode r0
      else if in_range 0xC2 0xDF b0 then
        match r0 with
        | b1 :: r1 =>
            if is_cont b1
            then cons ((b0 - 0xC0) * 64 + (b1 - 0x80)) <$> decode r1
            else None
        | _ => None
        end
      else if in_range 0xE0 0xEF b0 then
        match r0 with
        | b1 :: b2 :: r2 =>
            if in_range (if b0 =? 0xE0 then 0xA0 else 0x80)
                        (if b0 =? 0xED then 0x9F else 0xBF) b1
               && is_cont b2
            then cons ((b0 - 0xE0) * 4096 + (b1 - 0x80) * 64 + (b2 - 0x80))
                   <$> decode r2
            else None
        | _ => None
        end
      else if in_range 0xF0 0xF4 b0 then
        match r0 with
        | b1 :: b2 :: b3 :: r3 =>
            if in_range (if b0 =? 0xF0 then 0x90 else 0x80)
                        (if b0 =? 0xF4 then 0x8F else 0xBF) b1
               && is_cont b2 && is_cont b3
            then cons ((b0 - 0xF0) * 262144 + (b1 - 0x80) * 4096
                       + (b2 - 0x80) * 64 + (b3 - 0x80))
                   <$> decode r3
            else None
        | _ => None
        end
      else None
  end.

Definition scalar (c : Z) : Prop := is_scalar c = true.

End UTF8.

(** ** Newline translation of text-mode files

    [open(path, 'r')] has [newline=None]: on input, CR LF and a lone CR
    become LF; on output, LF becomes [os.linesep]. *)

Module Newlines.

Definition CR : Z := 13.
Definition LF : Z := 10.

Inductive platform := Posix | Windows.

Definition os_linesep (pf : platform) : list Z :=
  match pf with Posix => [LF] | Windows => [CR; LF] end.

(** What [read()] returns for the decoded text [s]. *)
Fixpoint universal_newlines (s : list Z) : list Z :=
  match s with
  | [] => []
  | c :: s' =>
      if c =? CR then
        LF :: match s' with
              | d :: s'' =>
                  if d =? LF then universal_newlines s''
                  else universal_newlines s'
              | [] => []
              end
      else c :: universal_newlines s'
  end.

(** What [write(s)] hands to the encoder. *)
Definition translate_newlines (pf : platform) (s : list Z) : list Z :=
  flat_map (fun c => if c =? LF then os_linesep pf else [c]) s.

Definition no_CR (s : list Z) : Prop := Forall (fun c => c <> CR) s.

End Newlines.

(** ** Unicode normalization (UAX 15) *)

Module Unicode.

Inductive normal_form := NFC | NFD | NFKC | NFKD.

(** The tables of the Unicode Character Database that normalization
    reads: the decomposition mapping of a code point with its
    compatibility flag ([unicodedata.decomposition]), its canonical
    combining class ([unicodedata.combining]), and the primary composite
    of a pair. *)
Record UCD := {
  decomposition : Z -> option (bool * list Z);
  combining : Z -> nat;
  composition : Z -> Z -> option Z
}.

(** Hangul syllables are decomposed and composed by arithmetic. *)
Definition SBase : Z := 0xAC00.
Definition LBase : Z := 0x1100.
Definition VBase : Z := 0x1161.
Definition TBase : Z := 0x11A7.
Definition LCount : Z := 19.
Definition VCount : Z := 21.
Definition TCount : Z := 28.
Definition NCount : Z := 588.
Definition SCount : Z := 11172.

Definition is_syllable (c : Z) : bool := (SBase <=? c) && (c <? SBase + SCount).
Definition is_L (c : Z) : bool := (LBase <=? c) && (c <? LBase + LCount).
Definition is_V (c : Z) : bool := (VBase <=? c) && (c <? VBase + VCount).
Definition is_T (c : Z) : bool := (TBase <? c) && (c <? TBase + TCount).

Definition hangul_decompose (c : Z) : list Z :=
  let si := c - SBase in
  let l := LBase + si / NCount in
  let v := VBase + (si mod NCount) / TCount in
  let t := TBase + si mod TCount in
  if t =? TBase then [l; v] else [l; v; t].

Definition hangul_compose (a b : Z) : option Z :=
  if is_L a && is_V b then
    Some (SBase + ((a - LBase) * VCount + (b - VBase)) * TCount)
  else if is_syllable a && ((a - SBase) mod TCount =? 0) && is_T b then
    Some (a + (b - TBase))
  else None.

(** How deep the decomposition mappings are followed (three levels
    suffice for the published tables). *)
Definition decomposition_fuel : nat := 16.

Section Normalize.
Variable ucd : UCD.

(** Full decomposition of one code point; [k] selects the
    compatibility mappings too. *)
Fixpoint decompose_char_fuel (k : bool) (fuel : nat) (c : Z) : list Z :=
  if is_syllable c then hangul_decompose c
  else
    match fuel with
    | O => [c]
    | S n =>
        match decomposition ucd c with
        | Some (compat, l) =>
            if compat && negb k then [c]
            else flat_map (decompose_char_fuel k n) l
        | None => [c]
        end
    end.

Definition decompose_char (k : bool) (c : Z) : list Z :=
  decompose_char_fuel k decomposition_fuel c.

Definition decompose (k : bool) (s : list Z) : list Z :=
  flat_map (decompose_char k) s.

Definition ccc (c : Z) : nat := combining ucd c.

(** Canonical ordering: a combining mark moves right past the marks of
    a smaller class; marks of equal class keep their order. *)
Fixpoint insert_mark (c : Z) (s : list Z) : list Z :=
  match s with
  | [] => [c]
  | d :: s' =>
      if (0 <? ccc d)%nat && (ccc d <? ccc c)%nat
      then d :: insert_mark c s'
      else c :: s
  end.

Definition canonical_order (s : list Z) : list Z :=
  foldr insert_mark [] s.

(** The primary composite of a pair. *)
Definition composite (a b : Z) : option Z :=
  match hangul_compose a b with
  | Some x => Some x
  | None => composition ucd a b
  end.

(** Canonical composition after the starter [st]; [pending] holds, last
    first, the marks after [st] that did not combine. A character is
    blocked when the last of them has a class at least its own. *)
Fixpoint compose_from (st : Z) (pending : list Z) (s : list Z) : list Z :=
  match s with
  | [] => st :: rev pending
  | c :: s' =>
      let blocked :=
        match pending with
        | [] => false
        | b :: _ => (ccc c <=? ccc b)%nat
        end in
      match (if blocked then None else composite st c) with
      | Some x => compose_from x pending s'
      | None =>
          if (ccc c =? 0)%nat
          then st :: rev pending ++ compose_from c [] s'
          else compose_from st (c :: pending) s'
      end
  end.

Fixpoint compose (s : list Z) : list Z :=
  match s with
  | [] => []
  | c :: s' =>
      if (ccc c =? 0)%nat then compose_from c [] s'
      else c :: compose s'
  end.

Definition is_compat (f : normal_form) : bool :=
  match f with NFKC | NFKD => true | _ => false end.

Definition is_composed (f : normal_form) : bool :=
  match f with NFC | NFKC => true | _ => false end.

(** [unicodedata.normalize(form, s)]. *)
Definition normalize (f : normal_form) (s : list Z) : list Z :=
  let d := canonical_order (decompose (is_compat f) s) in
  if is_composed f then compose d else d.

End Normalize.

(** *** Properties of the tables *)

Section Tables.
Variable ucd : UCD.

Definition is_jamo (c : Z) : bool := is_L c || is_V c || is_T c.

(** Every code point the tables produce satisfies [P]. *)
Definition closed (P : Z -> Prop) : Prop :=
  (forall c k l, decomposition ucd c = Some (k, l) -> Forall P l) /\
  (forall a b x, composition ucd a b = Some x -> P x).

(** A full decomposition consists of code points that decompose no
    further. *)
Definition decomposition_full (k : bool) : Prop :=
  forall c d, In d (decompose_char ucd k c) -> decompose_char ucd k d = [d].

(** A primary composite decomposes into the pair it was composed of. *)
Definition composition_inverse (k : bool) : Prop :=
  forall a b x, composition ucd a b = Some x ->
    decompose_char ucd k x = decompose_char ucd k a ++ decompose_char ucd k b.

(** No mark stands right after a mark of a greater class. *)
Fixpoint ordered (s : list Z) : Prop :=
  match s with
  | a :: (b :: _) as s' =>
      ~ (0 < ccc ucd b < ccc ucd a)%nat /\ ordered s'
  | _ => True
  end.

(** A code point that its own full decomposition leaves alone. *)
Definition stable (k : bool) (c : Z) : Prop := decompose_char ucd k c = [c].

End Tables.

(** The code points of a text that was read from a file: scalar values
    other than the carriage return. *)
Definition text_char (c : Z) : Prop := UTF8.scalar c /\ c <> Newlines.CR.

(** A fragment of the Unicode Character Database: Latin letters with
    diacritics, a two-level decomposition, singletons, compatibility
    mappings and an excluded composite. *)
Definition sample_decompositions : list (Z * (bool * list Z)) :=
  [ (0x00C5, (false, [0x0041; 0x030A]));  (* A with ring above *)
    (0x00E9, (false, [0x0065; 0x0301]));  (* e with acute *)
    (0x00FC, (false, [0x0075; 0x0308]));  (* u with diaeresis *)
    (0x01D8, (false, [0x00FC; 0x0301]));  (* u with diaeresis and acute *)
    (0x1E63, (false, [0x0073; 0x0323]));  (* s with dot below *)
    (0x1E69, (false, [0x1E63; 0x0307]));  (* s with dot below and dot above *)
    (0x1E61, (false, [0x0073; 0x0307]));  (* s with dot above *)
    (0x212B, (false, [0x00C5]));          (* angstrom sign *)
    (0x0958, (false, [0x0915; 0x093C]));  (* devanagari qa, excluded *)
    (0x00A0, (true, [0x0020]));           (* no-break space *)
    (0x00B2, (true, [0x0032]));           (* superscript two *)
    (0xFB01, (true, [0x0066; 0x0069])) ]. (* ligature fi *)

Definition sample_classes : list (Z * nat) :=
  [ (0x0301, 230%nat); (0x0307, 230%nat); (0x0308, 230%nat);
    (0x030A, 230%nat); (0x0323, 220%nat); (0x093C, 7%nat) ].

Definition sample_composites : list (Z * Z * Z) :=
  [ (0x0041, 0x030A, 0x00C5); (0x0065, 0x0301, 0x00E9);
    (0x0075, 0x0308, 0x00FC); (0x00FC, 0x0301, 0x01D8);
    (0x0073, 0x0323, 0x1E63); (0x1E63, 0x0307, 0x1E69);
    (0x0073, 0x0307, 0x1E61) ].

Fixpoint assoc {A} (c : Z) (t : list (Z * A)) : option A :=
  match t with
  | [] => None
  | (k, v) :: t' => if k =? c then Some v else assoc c t'
  end.

Fixpoint assoc2 (a b : Z) (t : list (Z * Z * Z)) : option Z :=
  match t with
  | [] => None
  | (x, y, v) :: t' => if (x =? a) && (y =? b) then Some v else assoc2 a b t'
  end.

Definition sample_ucd : UCD := {|
  decomposition c := assoc c sample_decompositions;
  combining c := default 0%nat (assoc c sample_classes);
  composition a b := assoc2 a b sample_composites
|}.

End Unicode.

(** ** The program *)

Module Program.
Import Newlines Unicode.
Local Open Scope string_scope.
Local Open Scope Z_scope.

(** *** Files *)

(** A [pathlib.Path] by its parts below the root; the root is [[]], and
    a relative path stands for the path from the root that the working
    directory makes of it.  pathlib keeps a [".."] part as it is
    written, and the operating system resolves it when the path is
    used.  Links and permissions are outside the model. *)
Abbreviation path := (list string).

Inductive node :=
| RegularFile (content : list Z)
| Directory.

Abbreviation filesystem := (gmap (list string) node).

Inductive lookup_result :=
| Found (n : node)
| Missing        (* ENOENT *)
| NotDir.        (* ENOTDIR: a regular file where a directory is needed *)

Definition parent (p : path) : path := removelast p.

(** Resolve [rest] below the directory at [dir], as the operating system
    walks a path: the part [".."] names the parent of the directory the
    walk stands in, the root being its own parent; every other part is
    looked up in that directory.  (Windows folds a [".."] before it looks
    anything up; the two agree where the directories named exist.) *)
Fixpoint resolve (fs : filesystem) (dir : path) (rest : path) : lookup_result :=
  match rest with
  | [] => Found Directory
  | x :: rest' =>
      if String.eqb x ".." then resolve fs (parent dir) rest'
      else
        match fs !! (dir ++ [x])%list with
        | None => Missing
        | Some Directory => resolve fs (dir ++ [x])%list rest'
        | Some (RegularFile bs) =>
            match rest' with
            | [] => Found (RegularFile bs)
            | _ :: _ => NotDir
            end
        end
  end.

Definition stat (fs : filesystem) (p : path) : lookup_result := resolve fs [] p.

(** The place the walk along [rest] from [dir] ends at. *)
Fixpoint locate (dir : path) (rest : path) : path :=
  match rest with
  | [] => dir
  | x :: rest' =>
      if String.eqb x ".." then locate (parent dir) rest'
      else locate (dir ++ [x])%list rest'
  end.

(** The place a path names: two paths with the same place name the
    same file. *)
Definition location (p : path) : path := locate [] p.

(** *** Exceptions *)

Inductive exn :=
| ValueError (msg : string)
| FileNotFoundError (filename : path)
| IsADirectoryError (filename : path)
| NotADirectoryError (filename : path)
| UnicodeDecodeError
| UnicodeEncodeError
| SystemExit (code : Z).

(** The classes named in the [except] clauses. *)
Inductive exn_class :=
| CValueError | CFileNotFoundError | COSError | CUnicodeDecodeError | CException.

(** [isinstance(e, cls)] along Python's exception hierarchy:
    the Unicode errors are ValueErrors, the file errors are OSErrors,
    SystemExit is no Exception. *)
Definition isinstance (e : exn) (cls : exn_class) : bool :=
  match cls, e with
  | CValueError, (ValueError _ | UnicodeDecodeError | UnicodeEncodeError) => true
  | CFileNotFoundError, FileNotFoundError _ => true
  | COSError, (FileNotFoundError _ | IsADirectoryError _ | NotADirectoryError _) => true
  | CUnicodeDecodeError, UnicodeDecodeError => true
  | CException, SystemExit _ => false
  | CException, _ => true
  | _, _ => false
  end.

(** *** Logging *)

Inductive level := DEBUG | INFO | WARNING | ERROR | CRITICAL.

Definition level_value (l : level) : Z :=
  match l with
  | DEBUG => 10 | INFO => 20 | WARNING => 30 | ERROR => 40 | CRITICAL => 50
  end.

(** The messages of the program, by the line that formats them. *)
Inductive message :=
| Successfully_normalized (input_file output_file : path) (normalization_form : string)
| File_not_found (e : exn)
| OS_error (e : exn)
| Unicode_decode_error (e : exn)
| An_unexpected_error_occurred (e : exn)
| Input_file_is_not_a_valid_file (input_file : path)
| Main_ValueError (e : exn)
| Main_FileNotFoundError (e : exn)
| Main_OSError (e : exn)
| Main_UnicodeDecodeError (e : exn)
| Main_An_unexpected_error_occurred (e : exn).

(** *** State and control *)

(** The world a run acts on: the files, the level of the root logger,
    every logging call made, and the records that passed the level. *)
Record world := {
  fs : filesystem;
  logger_level : level;
  calls : list (level * message);
  stream : list (level * message)
}.

Inductive result (A : Type) :=
| Returned (a : A)
| Raised (e : exn).
Arguments Returned {A} a.
Arguments Raised {A} e.

Definition M (A : Type) : Type := world -> result A * world.

Definition ret {A} (a : A) : M A := fun w => (Returned a, w).

Definition bind {A B} (m : M A) (k : A -> M B) : M B :=
  fun w =>
    match m w with
    | (Returned a, w') => k a w'
    | (Raised e, w') => (Raised e, w')
    end.

Definition raise {A} (e : exn) : M A := fun w => (Raised e, w).

(** [try: body except ...: handler]; the handler declines with [None]. *)
Definition try_except {A} (body : M A) (handler : exn -> option (M A)) : M A :=
  fun w =>
    match body w with
    | (Returned a, w') => (Returned a, w')
    | (Raised e, w') =>
        match handler e with
        | Some h => h w'
        | None => (Raised e, w')
        end
    end.

Notation "x <- m ;; k" := (bind m (fun x => k))
  (at level 100, m at next level, right associativity).
Notation "m ;; k" := (bind m (fun _ => k))
  (at level 100, right associativity).

Definition with_fs (f : filesystem) (w : world) : world :=
  {| fs := f; logger_level := logger_level w;
     calls := calls w; stream := stream w |}.

Definition with_level (l : level) (w : world) : world :=
  {| fs := fs w; logger_level := l; calls := calls w; stream := stream w |}.

(** A logging call at level [l]: recorded always, emitted when the
    logger's level allows it. *)
Definition with_call (l : level) (m : message) (w : world) : world :=
  {| fs := fs w; logger_level := logger_level w;
     calls := (calls w ++ [(l, m)])%list;
     stream := if level_value (logger_level w) <=? level_value l
               then (stream w ++ [(l, m)])%list else stream w |}.

Definition get_fs : M filesystem := fun w => (Returned (fs w), w).
Definition put_fs (f : filesystem) : M unit := fun w => (Returned tt, with_fs f w).
Definition setLevel (l : level) : M unit := fun w => (Returned tt, with_level l w).
Definition log (l : level) (m : message) : M unit :=
  fun w => (Returned tt, with_call l m w).

Definition logging_info := log INFO.
Definition logging_error := log ERROR.

Definition sys_exit {A} (code : Z) : M A := raise (SystemExit code).

(** *** File operations *)

Definition path_exists (p : path) : M bool :=
  f <- get_fs ;;
  ret (match stat f p with Found _ => true | _ => false end).

Definition is_file (p : path) : M bool :=
  f <- get_fs ;;
  ret (match stat f p with Found (RegularFile _) => true | _ => false end).

Section Run.
Variable pf : platform.
Variable ucd : UCD.

(** [with open(p, 'r', encoding='utf-8') as infile: infile.read()] *)
Definition read_text (p : path) : M (list Z) :=
  f <- get_fs ;;
  match stat f p with
  | Missing => raise (FileNotFoundError p)
  | NotDir => raise (NotADirectoryError p)
  | Found Directory => raise (IsADirectoryError p)
  | Found (RegularFile bs) =>
      match UTF8.decode bs with
      | None => raise UnicodeDecodeError
      | Some s => ret (universal_newlines s)
      end
  end.

(** [open(p, 'w')]: create the file or truncate it, at the place the
    path names. *)
Definition open_w (p : path) : M unit :=
  f <- get_fs ;;
  match stat f p with
  | Found Directory => raise (IsADirectoryError p)
  | NotDir => raise (NotADirectoryError p)
  | Found (RegularFile _) => put_fs (<[location p := RegularFile []]> f)
  | Missing =>
      match stat f (parent p) with
      | Found Directory => put_fs (<[location p := RegularFile []]> f)
      | _ => raise (FileNotFoundError p)
      end
  end.

(** [with open(p, 'w', encoding='utf-8') as outfile: outfile.write(s)].
    The device always takes the bytes: a write or a close that fails
    after the open (a full disk) is outside the model, so nothing here
    is said about the file such a failure leaves behind. *)
Definition write_text (p : path) (s : list Z) : M unit :=
  open_w p ;;
  match UTF8.encode (translate_newlines pf s) with
  | None => raise UnicodeEncodeError
  | Some bs => f <- get_fs ;; put_fs (<[location p := RegularFile bs]> f)
  end.

Definition form_of_string (s : string) : option normal_form :=
  if String.eqb s "NFC" then Some NFC
  else if String.eqb s "NFD" then Some NFD
  else if String.eqb s "NFKC" then Some NFKC
  else if String.eqb s "NFKD" then Some NFKD
  else None.

(** [unicodedata.normalize(form, unistr)] *)
Definition unicodedata_normalize (f : string) (s : list Z) : M (list Z) :=
  match form_of_string f with
  | Some fm => ret (normalize ucd fm s)
  | None => raise (ValueError "invalid normalization form")
  end.

Definition mem (s : string) (l : list string) : bool := existsb (String.eqb s) l.

(** *** [normalize_unicode] *)

Definition normalize_unicode
    (input_file output_file : path) (normalization_form : string) : M unit :=
  if negb (mem normalization_form ["NFC"; "NFKD"; "NFD"; "NFKC"]) then
    raise (ValueError ("Invalid normalization form: " ++ normalization_form))
  else
    ex <- path_exists input_file ;;
    if negb ex then raise (FileNotFoundError input_file)
    else
      try_except
        (content <- read_text input_file ;;
         normalized_content <- unicodedata_normalize normalization_form content ;;
         write_text output_file normalized_content ;;
         logging_info
           (Successfully_normalized input_file output_file normalization_form))
        (fun e =>
           if isinstance e CFileNotFoundError then
             Some (logging_error (File_not_found e) ;; raise e)
           else if isinstance e COSError then
             Some (logging_error (OS_error e) ;; raise e)
           else if isinstance e CUnicodeDecodeError then
             Some (logging_error (Unicode_decode_error e) ;; raise e)
           else if isinstance e CException then
             Some (logging_error (An_unexpected_error_occurred e) ;; raise e)
           else None).

(** *** The command line *)

(** A command line with both positionals and no option but [--form]
    and [--log_level], as argparse sees it once split: the two
    positionals and the values given to the two options.  Command lines
    argparse refuses for another reason (a missing or a further
    positional, an unknown option) and [-h] are not of this type. *)
Record command_line := {
  cl_input_file : path;
  cl_output_file : path;
  cl_form : option string;
  cl_log_level : option string
}.

Record parser := {
  form_default : string;
  form_choices : list string;
  log_level_default : string;
  log_level_choices : list string
}.

Definition setup_argparse : parser := {|
  form_default := "NFC";
  form_choices := ["NFC"; "NFKD"; "NFD"; "NFKC"];
  log_level_default := "INFO";
  log_level_choices := ["DEBUG"; "INFO"; "WARNING"; "ERROR"; "CRITICAL"]
|}.

Record args := {
  input_file : path;
  output_file : path;
  form : string;
  log_level : string
}.

(** [parser.parse_args()] on such a command line: a value outside the
    choices of its option ends the process with status 2. *)
Definition parse_args (p : parser) (cl : command_line) : M args :=
  let f := default (form_default p) (cl_form cl) in
  let l := default (log_level_default p) (cl_log_level cl) in
  if negb (mem f (form_choices p)) then sys_exit 2
  else if negb (mem l (log_level_choices p)) then sys_exit 2
  else ret {| input_file := cl_input_file cl;
              output_file := cl_output_file cl;
              form := f; log_level := l |}.

Definition level_of_string (s : string) : option level :=
  if String.eqb s "DEBUG" then Some DEBUG
  else if String.eqb s "INFO" then Some INFO
  else if String.eqb s "WARNING" then Some WARNING
  else if String.eqb s "ERROR" then Some ERROR
  else if String.eqb s "CRITICAL" then Some CRITICAL
  else None.

(** [logging.getLogger().setLevel(name)] *)
Definition setLevel_name (s : string) : M unit :=
  match level_of_string s with
  | Some l => setLevel l
  | None => raise (ValueError ("Unknown level: " ++ s))
  end.

(** *** [main] *)

Definition main (cl : command_line) : M unit :=
  let parser := setup_argparse in
  a <- parse_args parser cl ;;
  setLevel_name (log_level a) ;;
  try_except
    (isf <- is_file (input_file a) ;;
     (if negb isf then
        logging_error (Input_file_is_not_a_valid_file (input_file a)) ;;
        sys_exit 1
      else ret tt) ;;
     normalize_unicode (input_file a) (output_file a) (form a))
    (fun e =>
       if isinstance e CValueError then
         Some (logging_error (Main_ValueError e) ;; sys_exit 1)
       else if isinstance e CFileNotFoundError then
         Some (logging_error (Main_FileNotFoundError e) ;; sys_exit 1)
       else if isinstance e COSError then
         Some (logging_error (Main_OSError e) ;; sys_exit 1)
       else if isinstance e CUnicodeDecodeError then
         Some (logging_error (Main_UnicodeDecodeError e) ;; sys_exit 1)
       else if isinstance e CException then
         Some (logging_error (Main_An_unexpected_error_occurred e) ;; sys_exit 1)
       else None).

(** The exit status of the process that ran [m]. *)
Definition exit_code {A} (r : result A) : Z :=
  match r with
  | Returned _ => 0
  | Raised (SystemExit code) => code
  | Raised _ => 1
  end.

(** A run of the program: [python main.py ...] in the world [w]. *)
Definition run (cl : command_line) (w : world) : Z * world :=
  let '(r, w') := main cl w in (exit_code r, w').

End Run.

(** The arguments of a command line whose options are among the choices. *)
Definition args_of (cl : command_line) : args :=
  {| input_file := cl_input_file cl;
     output_file := cl_output_file cl;
     form := default "NFC" (cl_form cl);
     log_level := default "INFO" (cl_log_level cl) |}.

(** [dir] is a directory the walk from the root arrives at. *)
Inductive reached (f : filesystem) : path -> Prop :=
| reached_root : reached f []
| reached_step dir x :
    reached f dir -> x <> ".." -> f !! (dir ++ [x])%list = Some Directory ->
    reached f (dir ++ [x])%list.

(** The world at start-up: [logging.basicConfig(level=logging.INFO)]. *)
Definition initial_world (f : filesystem) : world :=
  {| fs := f; logger_level := INFO; calls := []; stream := [] |}.

(** [open(p, 'w')] succeeds on a regular file and on a free name in an
    existing directory. *)
Definition writable (f : filesystem) (p : path) : bool :=
  match stat f p with
  | Found (RegularFile _) => true
  | Missing =>
      match stat f (parent p) with Found Directory => true | _ => false end
  | _ => false
  end.

(** The error of [open(p, 'w')] when it fails. *)
Definition open_w_error (f : filesystem) (p : path) : exn :=
  match stat f p with
  | Found Directory => IsADirectoryError p
  | NotDir => NotADirectoryError p
  | _ => FileNotFoundError p
  end.

(** *** The error kinds of the specification

    Section 7 of the specification sorts failures into six kinds; each
    error message of the program reports one of them. *)
Inductive error_kind :=
| InvalidArgument | NotFound | InvalidInput | DecodeError | IOError | Unexpected.

Definition kind_of_message (m : message) : option error_kind :=
  match m with
  | Successfully_normalized _ _ _ => None
  | File_not_found _ | Main_FileNotFoundError _ => Some NotFound
  | OS_error _ | Main_OSError _ => Some IOError
  | Unicode_decode_error _ | Main_UnicodeDecodeError _ => Some DecodeError
  | An_unexpected_error_occurred _
  | Main_An_unexpected_error_occurred _ => Some Unexpected
  | Input_file_is_not_a_valid_file _ => Some InvalidInput
  | Main_ValueError _ => Some InvalidArgument
  end.

(** The kinds reported by the logging calls of a run. *)
Definition reported (cs : list (level * message)) : list error_kind :=
  omap (fun r => kind_of_message (snd r)) cs.

(** The kind under which [main] reports an exception that leaves
    [normalize_unicode]: the first of its [except] clauses, in the
    order of the source, whose class the exception belongs to. *)
Definition kind_of_exn (e : exn) : error_kind :=
  if isinstance e CValueError then InvalidArgument
  else if isinstance e CFileNotFoundError then NotFound
  else if isinstance e COSError then IOError
  else if isinstance e CUnicodeDecodeError then DecodeError
  else Unexpected.

End Program.

(** ** Concrete runs *)

Module Scenarios.
Import Newlines Unicode Program.
Local Open Scope string_scope.
Local Open Scope Z_scope.

Definition in_txt : path := ["in.txt"].
Definition out_txt : path := ["out.txt"].

(** [python main.py inp out], with [--form f] when [f] is given. *)
Definition cli (inp out : path) (f : option string) : command_line :=
  {| cl_input_file := inp; cl_output_file := out;
     cl_form := f; cl_log_level := None |}.

(** The second run of a pair: the output of the first run is its input. *)
Definition again (cl : command_line) (out : path) : command_line :=
  {| cl_input_file := cl_output_file cl; cl_output_file := out;
     cl_form := cl_form cl; cl_log_level := cl_log_level cl |}.

(** A working directory that holds [in.txt] only. *)
Definition one_file (bs : list Z) : filesystem := {[ in_txt := RegularFile bs ]}.

(** "a", carriage return, "b". *)
Definition a_CR_b : list Z := [0x61; 0x0D; 0x62].
Definition a_LF_b : list Z := [0x61; 0x0A; 0x62].

(** "cafe" and a combining acute accent; "caf" and e with acute. *)
Definition cafe_decomposed : list Z := [0x63; 0x61; 0x66; 0x65; 0x301].
Definition cafe_precomposed : list Z := [0x63; 0x61; 0x66; 0xE9].

(** The entries of the Unicode Character Database for the code points of
    [cafe_decomposed]. *)
Definition agrees_on_cafe (ucd : UCD) : Prop :=
  Forall (fun c => decomposition ucd c = None) cafe_decomposed /\
  Forall (fun c => combining ucd c = 0%nat) [0x63; 0x61; 0x66; 0x65] /\
  combining ucd 0x301 = 230%nat /\
  composition ucd 0x63 0x61 = None /\
  composition ucd 0x61 0x66 = None /\
  composition ucd 0x66 0x65 = None /\
  composition ucd 0x65 0x301 = Some 0xE9.

(** A lone byte 0xFF is not UTF-8. *)
Definition not_utf8 : list Z := [0x63; 0xFF].

End Scenarios.

(** ** What a run lets one observe *)

Module Observations.
Import Newlines Unicode Program.
Local Open Scope string_scope.
Local Open Scope Z_scope.

(** The command line [cl] with [--log_level l]. *)
Definition set_log_level (l : string) (cl : command_line) : command_line :=
  {| cl_input_file := cl_input_file cl; cl_output_file := cl_output_file cl;
     cl_form := cl_form cl; cl_log_level := Some l |}.

(** The command line [cl] with [--form f], reading [inp] and writing [out]. *)
Definition set_run (inp out : path) (f : string) (cl : command_line) : command_line :=
  {| cl_input_file := inp; cl_output_file := out;
     cl_form := Some f; cl_log_level := cl_log_level cl |}.

(** The records a logger at level [lv] lets through. *)
Definition emitted (lv : level) (cs : list (level * message)) : list (level * message) :=
  List.filter (fun r => level_value lv <=? level_value (fst r)) cs.

(** No byte of [bs] is a carriage return. *)
Definition no_CR_byte (bs : list Z) : Prop := Forall (fun b => b <> CR) bs.

(** The options of [cl] are among the choices of the parser. *)
Definition options_valid (cl : command_line) : Prop :=
  is_Some (form_of_string (default "NFC" (cl_form cl))) /\
  is_Some (level_of_string (default "INFO" (cl_log_level cl))).

End Observations.

(** ** The codec round trip *)

Module UTF8Facts.
Import UTF8.

(** Decide the integer comparisons of the goal by linear arithmetic. *)
Ltac zcmp :=
  repeat match goal with
    | |- context [?a <=? ?b] =>
        first [ replace (a <=? b) with true by (symmetry; apply Z.leb_le; lia)
              | replace (a <=? b) with false by (symmetry; apply Z.leb_gt; lia) ]
    | |- context [?a <? ?b] =>
        first [ replace (a <? b) with true by (symmetry; apply Z.ltb_lt; lia)
              | replace (a <? b) with false by (symmetry; apply Z.ltb_ge; lia) ]
    | |- context [?a =? ?b] =>
        first [ replace (a =? b) with true by (symmetry; apply Z.eqb_eq; lia)
              | replace (a =? b) with false by (symmetry; apply Z.eqb_neq; lia) ]
    end.

(** Name the base-64 digits of [c] and record the equations between them. *)
Ltac digits c :=
  let q := fresh "q" in let m := fresh "m" in
  let q' := fresh "q" in let m' := fresh "m" in
  let q'' := fresh "q" in let m'' := fresh "m" in
  pose proof (Z.div_mod c 64 ltac:(lia));
  pose proof (Z.mod_pos_bound c 64 ltac:(lia));
  replace (c / 4096) with (c / 64 / 64) in * by (rewrite Z.div_div by lia; reflexivity);
  replace (c / 262144) with (c / 64 / 64 / 64) in *
    by (rewrite !Z.div_div by lia; reflexivity);
  pose proof (Z.div_mod (c / 64) 64 ltac:(lia));
  pose proof (Z.mod_pos_bound (c / 64) 64 ltac:(lia));
  pose proof (Z.div_mod (c / 64 / 64) 64 ltac:(lia));
  pose proof (Z.mod_pos_bound (c / 64 / 64) 64 ltac:(lia));
  set (m := c mod 64) in *;
  set (m' := (c / 64) mod 64) in *;
  set (m'' := (c / 64 / 64) mod 64) in *;
  set (q'' := c / 64 / 64 / 64) in *;
  set (q' := c / 64 / 64) in *;
  set (q := c / 64) in *.

Lemma decode_encode_char c bs r :
  encode_char c = Some bs -> decode (bs ++ r) = cons c <$> decode r.
Proof.
  unfold encode_char, is_scalar, is_surrogate.
  intros H.
  destruct (0 <=? c) eqn:E0; [|discriminate].
  destruct (c <? 0x110000) eqn:E1; [|discriminate].
  destruct ((0xD800 <=? c) && (c <? 0xE000)) eqn:E2; [discriminate|].
  simpl in H.
  apply Z.leb_le in E0. apply Z.ltb_lt in E1.
  apply andb_false_iff in E2.
  rewrite Z.leb_gt, Z.ltb_ge in E2.
  destruct (c <? 0x80) eqn:E3.
  { apply Z.ltb_lt in E3. inversion H; subst; clear H. simpl.
    unfold in_range. zcmp. reflexivity. }
  apply Z.ltb_ge in E3.
  destruct (c <? 0x800) eqn:E4.
  { apply Z.ltb_lt in E4. inversion H; subst; clear H.
    cbn [app decode]. digits c.
    unfold in_range, is_cont. zcmp.
    simpl. f_equal. f_equal. lia. }
  apply Z.ltb_ge in E4.
  destruct (c <? 0x10000) eqn:E5.
  { apply Z.ltb_lt in E5. inversion H; subst; clear H.
    cbn [app decode]. digits c.
    unfold in_range, is_cont.
    destruct (Z.eqb_spec (224 + q0) 224), (Z.eqb_spec (224 + q0) 237);
      zcmp; simpl; f_equal; f_equal; lia. }
  apply Z.ltb_ge in E5.
  inversion H; subst; clear H.
  cbn [app decode]. digits c.
  unfold in_range, is_cont.
  destruct (Z.eqb_spec (240 + q1) 240), (Z.eqb_spec (240 + q1) 244);
    zcmp; simpl; f_equal; f_equal; lia.
Qed.

(** Decoding what the encoder produced gives the text back. *)
Lemma decode_encode s bs : encode s = Some bs -> decode bs = Some s.
Proof.
  revert bs. induction s as [|c s IH]; intros bs H; simpl in H.
  - by inversion H.
  - destruct (encode_char c) as [b|] eqn:Ec; [|discriminate].
    destruct (encode s) as [r|] eqn:Er; [|discriminate].
    inversion H; subst; clear H.
    rewrite (decode_encode_char _ _ _ Ec), (IH r eq_refl). reflexivity.
Qed.

End UTF8Facts.

(** ** The normalization forms on examples *)

Module UnicodeExamples.
Import Unicode.

Example nfc_cafe :
  normalize sample_ucd NFC [0x63; 0x61; 0x66; 0x65; 0x301] = [0x63; 0x61; 0x66; 0xE9].
Proof. reflexivity. Qed.

Example nfd_cafe :
  normalize sample_ucd NFD [0x63; 0x61; 0x66; 0xE9] = [0x63; 0x61; 0x66; 0x65; 0x301].
Proof. reflexivity. Qed.

(** Marks are reordered by class and composed across an unblocking mark. *)
Example nfd_reorder :
  normalize sample_ucd NFD [0x73; 0x307; 0x323] = [0x73; 0x323; 0x307].
Proof. reflexivity. Qed.

Example nfc_two_levels :
  normalize sample_ucd NFC [0x73; 0x307; 0x323] = [0x1E69].
Proof. reflexivity. Qed.

Example nfc_singleton : normalize sample_ucd NFC [0x212B] = [0xC5].
Proof. reflexivity. Qed.

Example nfc_excluded : normalize sample_ucd NFC [0x958] = [0x915; 0x93C].
Proof. reflexivity. Qed.

Example nfkc_ligature : normalize sample_ucd NFKC [0xFB01; 0xB2] = [0x66; 0x69; 0x32].
Proof. reflexivity. Qed.

Example nfc_keeps_ligature : normalize sample_ucd NFC [0xFB01] = [0xFB01].
Proof. reflexivity. Qed.

Example nfd_hangul : normalize sample_ucd NFD [0xD55C] = [0x1112; 0x1161; 0x11AB].
Proof. reflexivity. Qed.

Example nfc_hangul : normalize sample_ucd NFC [0x1112; 0x1161; 0x11AB] = [0xD55C].
Proof. reflexivity. Qed.

End UnicodeExamples.

(** ** Facts about the codec and the newline translation *)

Module CodecFacts.
Import UTF8 UTF8Facts Newlines.

Lemma scalar_spec c : scalar c <-> 0 <= c < 0x110000 /\ ~ (0xD800 <= c < 0xE000).
Proof.
  unfold scalar, is_scalar, is_surrogate.
  rewrite !andb_true_iff, negb_true_iff, andb_false_iff.
  rewrite Z.leb_le, Z.ltb_lt, Z.leb_gt, Z.ltb_ge. lia.
Qed.

Lemma encode_char_scalar c : scalar c -> is_Some (encode_char c).
Proof.
  unfold scalar, encode_char. intros ->. simpl.
  repeat match goal with |- context [if ?b then _ else _] => destruct b end; eauto.
Qed.

(** The strict encoder accepts exactly the texts of scalar values. *)
Lemma encode_scalar s : Forall scalar s -> is_Some (encode s).
Proof.
  induction 1 as [|c s Hc _ IH]; simpl; [eauto|].
  destruct (encode_char_scalar c Hc) as [b ->].
  destruct IH as [r ->]. eauto.
Qed.

Lemma encode_Some_scalar s bs : encode s = Some bs -> Forall scalar s.
Proof.
  revert bs. induction s as [|c s IH]; intros bs H; [constructor|].
  simpl in H.
  destruct (encode_char c) as [b|] eqn:Ec; [|discriminate].
  destruct (encode s) as [r|] eqn:Er; [|discriminate].
  constructor; [|eauto].
  unfold encode_char in Ec. unfold scalar.
  destruct (is_scalar c); [reflexivity|discriminate].
Qed.

Ltac range_facts :=
  repeat match goal with
    | H : in_range _ _ _ = true |- _ =>
        unfold in_range in H; apply andb_true_iff in H;
        rewrite !Z.leb_le in H; destruct H
    | H : is_cont _ = true |- _ =>
        unfold is_cont in H; apply andb_true_iff in H;
        rewrite Z.leb_le, Z.ltb_lt in H; destruct H
    | H : _ && _ = true |- _ => apply andb_true_iff in H; destruct H
    end.

(** The strict decoder yields scalar values only. *)
Lemma decode_scalar bs s : decode bs = Some s -> Forall scalar s.
Proof.
  remember (length bs) as n eqn:Hn. revert bs s Hn.
  induction n as [n IH] using lt_wf_ind. intros bs s Hn H.
  destruct bs as [|b0 r0]; simpl in H; [inversion H; constructor|].
  simpl in Hn.
  destruct (in_range 0 127 b0) eqn:R1.
  { apply fmap_Some in H as (t & Ht & ->).
    constructor; [|eapply (IH (length r0)); eauto; lia].
    apply scalar_spec. range_facts. lia. }
  destruct (in_range 194 223 b0) eqn:R2.
  { destruct r0 as [|b1 r1]; [discriminate|].
    destruct (is_cont b1) eqn:C1; [|discriminate].
    apply fmap_Some in H as (t & Ht & ->).
    constructor; [|eapply (IH (length r1)); eauto; simpl in *; lia].
    apply scalar_spec. range_facts. lia. }
  destruct (in_range 224 239 b0) eqn:R3.
  { destruct r0 as [|b1 [|b2 r2]]; try discriminate.
    match type of H with (if ?c then _ else _) = _ => destruct c eqn:C1 end;
      [|discriminate].
    apply fmap_Some in H as (t & Ht & ->).
    constructor; [|eapply (IH (length r2)); eauto; simpl in *; lia].
    apply scalar_spec. range_facts.
    destruct (Z.eqb_spec b0 224), (Z.eqb_spec b0 237); lia. }
  destruct (in_range 240 244 b0) eqn:R4; [|discriminate].
  destruct r0 as [|b1 [|b2 [|b3 r3]]]; try discriminate.
  match type of H with (if ?c then _ else _) = _ => destruct c eqn:C1 end;
    [|discriminate].
  apply fmap_Some in H as (t & Ht & ->).
  constructor; [|eapply (IH (length r3)); eauto; simpl in *; lia].
  apply scalar_spec. range_facts.
  destruct (Z.eqb_spec b0 240), (Z.eqb_spec b0 244); lia.
Qed.

(** *** Newlines *)

Lemma universal_newlines_no_CR s : no_CR (universal_newlines s).
Proof.
  unfold no_CR.
  remember (length s) as n eqn:Hn. revert s Hn.
  induction n as [n IH] using lt_wf_ind. intros s Hn.
  destruct s as [|c s']; simpl; [constructor|]. simpl in Hn.
  destruct (Z.eqb_spec c CR).
  - constructor; [discriminate|].
    destruct s' as [|d s'']; [constructor|]. simpl in Hn.
    destruct (d =? LF).
    + apply (IH (length s'')); [lia|reflexivity].
    + apply (IH (length (d :: s''))); [simpl; lia|reflexivity].
  - constructor; [assumption|].
    apply (IH (length s')); [lia|reflexivity].
Qed.

Lemma universal_newlines_id s : no_CR s -> universal_newlines s = s.
Proof.
  induction 1 as [|c s Hc _ IH]; simpl; [reflexivity|].
  destruct (Z.eqb_spec c CR); [contradiction|]. by rewrite IH.
Qed.

Lemma universal_newlines_cons c s :
  c <> CR -> universal_newlines (c :: s) = c :: universal_newlines s.
Proof. intros H. simpl. by destruct (Z.eqb_spec c CR). Qed.

Lemma universal_newlines_CRLF s :
  universal_newlines (CR :: LF :: s) = LF :: universal_newlines s.
Proof. reflexivity. Qed.

(** Reading back what was written restores the text, on either platform. *)
Lemma universal_translate pf s :
  no_CR s -> universal_newlines (translate_newlines pf s) = s.
Proof.
  unfold translate_newlines.
  induction 1 as [|c s Hc _ IH]; [reflexivity|].
  cbn [flat_map].
  destruct (Z.eqb_spec c LF) as [->|Hlf].
  - destruct pf; unfold os_linesep at 1; cbn [app].
    + rewrite universal_newlines_cons by discriminate. by rewrite IH.
    + by rewrite universal_newlines_CRLF, IH.
  - cbn [app]. rewrite universal_newlines_cons by assumption. by rewrite IH.
Qed.

Lemma universal_newlines_scalar s : Forall scalar s -> Forall scalar (universal_newlines s).
Proof.
  remember (length s) as n eqn:Hn. revert s Hn.
  induction n as [n IH] using lt_wf_ind. intros s Hn H.
  destruct s as [|c s']; simpl; [constructor|]. simpl in Hn.
  inversion H as [|? ? Hc Hs]; subst.
  destruct (c =? CR).
  - constructor; [reflexivity|].
    destruct s' as [|d s'']; [constructor|].
    inversion Hs; subst.
    destruct (d =? LF).
    + apply (IH (length s'')); [simpl; lia|reflexivity|assumption].
    + apply (IH (length (d :: s''))); [simpl; lia|reflexivity|assumption].
  - constructor; [assumption|].
    apply (IH (length s')); [subst; lia|reflexivity|assumption].
Qed.

Lemma translate_newlines_scalar pf s :
  Forall scalar s -> Forall scalar (translate_newlines pf s).
Proof.
  unfold translate_newlines.
  induction 1 as [|c s Hc _ IH]; simpl; [constructor|].
  apply Forall_app; split; [|assumption].
  destruct (c =? LF); [|by constructor].
  destruct pf; repeat constructor.
Qed.

End CodecFacts.
(** ** Facts about the file system *)

Module FileFacts.
Import Program.
Local Open Scope string_scope.
Local Open Scope list_scope.

Lemma removelast_cons2 {A} (x y : A) r : removelast (x :: y :: r) = x :: removelast (y :: r).
Proof. reflexivity. Qed.

Lemma reached_parent f dir : reached f dir -> reached f (parent dir).
Proof.
  intros [|d x Hd _ _]; [constructor|].
  unfold parent. by rewrite removelast_last.
Qed.

(** From a directory the walk has reached, the walk goes on as from the
    root. *)
Lemma reached_stat f dir :
  reached f dir -> forall r, stat f (dir ++ r) = resolve f dir r.
Proof.
  induction 1 as [|dir x Hd IH Hx Hl]; intros r; [reflexivity|].
  rewrite <- app_assoc, IH. cbn [app resolve].
  apply String.eqb_neq in Hx. by rewrite Hx, Hl.
Qed.

(** What a walk finds is the entry at the place it ends at. *)
Lemma resolve_lookup f rest : forall dir,
  reached f dir ->
  match resolve f dir rest with
  | Found (RegularFile bs) => f !! locate dir rest = Some (RegularFile bs)
  | Found Directory => reached f (locate dir rest)
  | Missing =>
      resolve f dir (removelast rest) = Found Directory ->
      f !! locate dir rest = None
  | NotDir => True
  end.
Proof.
  induction rest as [|x rest IH]; intros dir Hd; [exact Hd|].
  cbn [resolve locate].
  destruct (String.eqb_spec x "..") as [->|Hx].
  - specialize (IH (parent dir) (reached_parent _ _ Hd)).
    destruct rest as [|y r]; [exact IH|].
    rewrite removelast_cons2. cbn [resolve].
    change (".." =? "..")%string with true. cbv iota. exact IH.
  - destruct (f !! (dir ++ [x])) as [[bs|]|] eqn:Hl.
    + destruct rest; [exact Hl|exact I].
    + specialize (IH (dir ++ [x]) (reached_step _ _ _ Hd Hx Hl)).
      destruct rest as [|y r]; [exact IH|].
      rewrite removelast_cons2. cbn [resolve].
      apply String.eqb_neq in Hx. rewrite Hx, Hl. exact IH.
    + destruct rest as [|y r]; [intros _; exact Hl|].
      rewrite removelast_cons2. cbn [resolve].
      apply String.eqb_neq in Hx. by rewrite Hx, Hl.
Qed.

(** A regular file is found at the place its path names. *)
Lemma stat_lookup f p bs :
  stat f p = Found (RegularFile bs) -> f !! location p = Some (RegularFile bs).
Proof.
  intros H. pose proof (resolve_lookup f p [] (reached_root f)) as L.
  unfold stat in H. by rewrite H in L.
Qed.

(** Where [open(p, 'w')] succeeds there is no directory. *)
Lemma writable_place f p :
  writable f p = true -> f !! location p <> Some Directory.
Proof.
  unfold writable, stat, parent, location. intros H.
  pose proof (resolve_lookup f p [] (reached_root f)) as L.
  destruct (resolve f [] p) as [[bs|]| |]; try done.
  - by rewrite L.
  - destruct (resolve f [] (removelast p)) as [[?|]| |]; try done.
    by rewrite L.
Qed.

(** Writing a file where [open(p, 'w')] succeeds makes it the file at [p]. *)
Lemma resolve_insert_target f k b rest : forall dir,
  f !! k <> Some Directory ->
  locate dir rest = k ->
  (match resolve f dir rest with
   | Found (RegularFile _) => True
   | Missing => resolve f dir (removelast rest) = Found Directory
   | _ => False
   end) ->
  resolve (<[k := RegularFile b]> f) dir rest = Found (RegularFile b).
Proof.
  induction rest as [|x rest IH]; intros dir Hk Hloc H; [done|].
  cbn [resolve locate] in *.
  destruct (String.eqb_spec x "..") as [->|Hx].
  - apply IH; [exact Hk|exact Hloc|].
    destruct rest as [|y r]; [done|].
    rewrite removelast_cons2 in H. cbn [resolve] in H.
    change (".." =? "..")%string with true in H. exact H.
  - destruct rest as [|y r].
    + cbn [locate] in Hloc. subst k. by rewrite lookup_insert_eq.
    + rewrite removelast_cons2 in H. cbn [resolve] in H.
      pose proof Hx as Hb. apply String.eqb_neq in Hb. rewrite Hb in H.
      destruct (f !! (dir ++ [x])) as [[bs|]|] eqn:Hl; try done.
      rewrite lookup_insert_ne by (intros E; apply Hk; by rewrite E).
      rewrite Hl. by apply IH.
Qed.

Lemma stat_insert_target f p b :
  writable f p = true ->
  stat (<[location p := RegularFile b]> f) p = Found (RegularFile b).
Proof.
  intros Hw. pose proof (writable_place f p Hw) as Hk.
  unfold stat. apply resolve_insert_target; [exact Hk|reflexivity|].
  unfold writable, stat, parent in Hw.
  destruct (resolve f [] p) as [[bs|]| |]; try done.
  by destruct (resolve f [] (removelast p)) as [[?|]| |].
Qed.

(** Writing at one place leaves what is found at every other place alone. *)
Lemma resolve_insert_other f k v rest : forall dir n,
  f !! k <> Some Directory ->
  locate dir rest <> k ->
  resolve f dir rest = Found n ->
  resolve (<[k := v]> f) dir rest = Found n.
Proof.
  induction rest as [|x rest IH]; intros dir n Hk Hloc H; [done|].
  cbn [resolve locate] in *.
  destruct (String.eqb_spec x "..") as [->|Hx]; [by apply IH|].
  destruct (f !! (dir ++ [x])) as [[bs|]|] eqn:Hl; try done.
  - destruct rest; [|done]. cbn [locate] in Hloc.
    by rewrite lookup_insert_ne, Hl.
  - rewrite lookup_insert_ne by (intros E; apply Hk; by rewrite E).
    rewrite Hl. by apply IH.
Qed.

Lemma stat_insert_other f p q v n :
  writable f p = true -> location p <> location q ->
  stat f q = Found n ->
  stat (<[location p := v]> f) q = Found n.
Proof.
  intros Hw Hne H. apply resolve_insert_other; [|by apply not_eq_sym|exact H].
  by apply writable_place.
Qed.

(** A path without [".."] names the place it spells. *)
Lemma locate_plain rest : forall dir,
  ~ In ".." rest -> locate dir rest = (dir ++ rest)%list.
Proof.
  induction rest as [|x rest IH]; intros dir H; [by rewrite app_nil_r|].
  cbn [locate]. destruct (String.eqb_spec x "..") as [->|Hx].
  - exfalso. apply H. by left.
  - rewrite IH by (intros Hi; apply H; by right).
    by rewrite <- app_assoc.
Qed.

Lemma location_plain p : ~ In ".." p -> location p = p.
Proof. intros H. unfold location. by rewrite locate_plain. Qed.

End FileFacts.

(** ** The behaviour of [normalize_unicode] and [main], case by case *)

Module RunFacts.
Import Newlines Unicode Program FileFacts.
Local Open Scope string_scope.
Local Open Scope Z_scope.

Lemma form_of_string_mem f :
  mem f ["NFC"; "NFKD"; "NFD"; "NFKC"] = bool_decide (is_Some (form_of_string f)).
Proof.
  unfold mem, form_of_string. simpl.
  destruct (String.eqb f "NFC"), (String.eqb f "NFKD"),
    (String.eqb f "NFD"), (String.eqb f "NFKC"); reflexivity.
Qed.

Lemma level_of_string_mem l :
  mem l ["DEBUG"; "INFO"; "WARNING"; "ERROR"; "CRITICAL"]
  = bool_decide (is_Some (level_of_string l)).
Proof.
  unfold mem, level_of_string. simpl.
  destruct (String.eqb l "DEBUG"), (String.eqb l "INFO"),
    (String.eqb l "WARNING"), (String.eqb l "ERROR"),
    (String.eqb l "CRITICAL"); reflexivity.
Qed.

Section Run.
Variable pf : platform.
Variable ucd : UCD.

Lemma open_w_eq p w :
  open_w p w =
  if writable (fs w) p
  then (Returned tt, with_fs (<[location p := RegularFile []]> (fs w)) w)
  else (Raised (open_w_error (fs w) p), w).
Proof.
  unfold open_w, writable, open_w_error, bind, get_fs, put_fs, raise.
  destruct (stat (fs w) p) as [[bs|]| |]; try reflexivity.
  destruct (stat (fs w) (parent p)) as [[bs|]| |]; reflexivity.
Qed.

Lemma open_w_error_OSError f p : isinstance (open_w_error f p) COSError = true.
Proof. unfold open_w_error. by destruct (stat f p) as [[?|]| |]. Qed.

(** What [normalize_unicode] does, by the state of the files. *)
Lemma normalize_unicode_eq inp out f w :
  normalize_unicode pf ucd inp out f w =
  match form_of_string f with
  | None => (Raised (ValueError ("Invalid normalization form: " ++ f)), w)
  | Some fm =>
      match stat (fs w) inp with
      | Missing | NotDir => (Raised (FileNotFoundError inp), w)
      | Found Directory =>
          (Raised (IsADirectoryError inp),
           with_call ERROR (OS_error (IsADirectoryError inp)) w)
      | Found (RegularFile bs) =>
          match UTF8.decode bs with
          | None =>
              (Raised UnicodeDecodeError,
               with_call ERROR (Unicode_decode_error UnicodeDecodeError) w)
          | Some s =>
              let n := normalize ucd fm (universal_newlines s) in
              if writable (fs w) out then
                match UTF8.encode (translate_newlines pf n) with
                | Some b =>
                    (Returned tt,
                     with_call INFO (Successfully_normalized inp out f)
                       (with_fs (<[location out := RegularFile b]> (fs w)) w))
                | None =>
                    (Raised UnicodeEncodeError,
                     with_call ERROR (An_unexpected_error_occurred UnicodeEncodeError)
                       (with_fs (<[location out := RegularFile []]> (fs w)) w))
                end
              else
                let e := open_w_error (fs w) out in
                (Raised e,
                 with_call ERROR
                   (if isinstance e CFileNotFoundError
                    then File_not_found e else OS_error e) w)
          end
      end
  end.
Proof.
  unfold normalize_unicode. rewrite form_of_string_mem.
  destruct (form_of_string f) as [fm|] eqn:Hf; simpl; [|reflexivity].
  unfold bind at 1, path_exists, bind at 1, get_fs, ret.
  destruct (stat (fs w) inp) as [[bs|]| |] eqn:Hs; simpl; try reflexivity.
  - unfold try_except, bind at 1, read_text, bind at 1, get_fs. rewrite Hs.
    destruct (UTF8.decode bs) as [s|] eqn:Hd; simpl; [|reflexivity].
    unfold ret, bind at 1, unicodedata_normalize. rewrite Hf. unfold ret.
    unfold bind at 1, write_text, bind at 1. rewrite open_w_eq.
    destruct (writable (fs w) out) eqn:Hw.
    + destruct (UTF8.encode _) as [b|] eqn:He; simpl; [|reflexivity].
      unfold bind, get_fs, put_fs, logging_info, log. simpl.
      by rewrite insert_insert_eq.
    + unfold open_w_error.
      destruct (stat (fs w) out) as [[?|]| |]; reflexivity.
  - unfold try_except, bind at 1, read_text, bind at 1, get_fs. by rewrite Hs.
Qed.

Lemma parse_args_eq cl w :
  parse_args setup_argparse cl w =
  match form_of_string (default "NFC" (cl_form cl)),
        level_of_string (default "INFO" (cl_log_level cl)) with
  | Some _, Some _ => (Returned (args_of cl), w)
  | _, _ => (Raised (SystemExit 2), w)
  end.
Proof.
  unfold parse_args, setup_argparse. cbn [form_default form_choices
    log_level_default log_level_choices].
  rewrite form_of_string_mem, level_of_string_mem.
  destruct (form_of_string _); simpl; [|reflexivity].
  destruct (level_of_string _); reflexivity.
Qed.

(** What a run does, by the command line and the state of the files. *)
Lemma run_eq cl w :
  run pf ucd cl w =
  match form_of_string (default "NFC" (cl_form cl)),
        level_of_string (default "INFO" (cl_log_level cl)) with
  | Some fm, Some lv =>
      let w1 := with_level lv w in
      let inp := cl_input_file cl in
      let out := cl_output_file cl in
      match stat (fs w) inp with
      | Found (RegularFile bs) =>
          match UTF8.decode bs with
          | None =>
              (1, with_call ERROR (Main_ValueError UnicodeDecodeError)
                    (with_call ERROR (Unicode_decode_error UnicodeDecodeError) w1))
          | Some s =>
              let n := normalize ucd fm (universal_newlines s) in
              if writable (fs w) out then
                match UTF8.encode (translate_newlines pf n) with
                | Some b =>
                    (0, with_call INFO
                          (Successfully_normalized inp out
                             (default "NFC" (cl_form cl)))
                          (with_fs (<[location out := RegularFile b]> (fs w)) w1))
                | None =>
                    (1, with_call ERROR (Main_ValueError UnicodeEncodeError)
                          (with_call ERROR
                             (An_unexpected_error_occurred UnicodeEncodeError)
                             (with_fs (<[location out := RegularFile []]> (fs w)) w1)))
                end
              else
                let e := open_w_error (fs w) out in
                (1, with_call ERROR
                      (if isinstance e CFileNotFoundError
                       then Main_FileNotFoundError e else Main_OSError e)
                      (with_call ERROR
                         (if isinstance e CFileNotFoundError
                          then File_not_found e else OS_error e) w1))
          end
      | _ => (1, with_call ERROR (Input_file_is_not_a_valid_file inp) w1)
      end
  | _, _ => (2, w)
  end.
Proof.
  unfold run, main. unfold bind at 1. rewrite parse_args_eq.
  destruct (form_of_string _) as [fm|] eqn:Hf; [|reflexivity].
  destruct (level_of_string _) as [lv|] eqn:Hl; [|reflexivity].
  unfold bind at 1, setLevel_name. cbn [args_of log_level]. rewrite Hl.
  unfold setLevel. cbn [args_of input_file output_file form].
  unfold try_except, bind at 1, is_file, bind at 1, get_fs, ret.
  cbn [fs with_level].
  destruct (stat (fs w) (cl_input_file cl)) as [[bs|]| |] eqn:Hs;
    cbn [negb]; try reflexivity.
  unfold bind at 1. rewrite normalize_unicode_eq, Hf. cbn [fs with_level].
  rewrite Hs.
  destruct (UTF8.decode bs) as [s|] eqn:Hd; [|reflexivity].
  cbv zeta.
  destruct (writable (fs w) (cl_output_file cl)) eqn:Hw.
  - destruct (UTF8.encode _) as [b|] eqn:He; reflexivity.
  - unfold open_w_error.
    destruct (stat (fs w) (cl_output_file cl)) as [[?|]| |]; reflexivity.
Qed.

(** A run that ends with status 0 read a regular file of UTF-8 text
    and wrote the translated, normalized text. *)
Lemma run_success cl w w' :
  run pf ucd cl w = (0, w') ->
  exists fm lv bs s out,
    form_of_string (default "NFC" (cl_form cl)) = Some fm /\
    level_of_string (default "INFO" (cl_log_level cl)) = Some lv /\
    stat (fs w) (cl_input_file cl) = Found (RegularFile bs) /\
    UTF8.decode bs = Some s /\
    writable (fs w) (cl_output_file cl) = true /\
    UTF8.encode (translate_newlines pf (normalize ucd fm (universal_newlines s)))
    = Some out /\
    w' = with_call INFO
           (Successfully_normalized (cl_input_file cl) (cl_output_file cl)
              (default "NFC" (cl_form cl)))
           (with_fs (<[location (cl_output_file cl) := RegularFile out]> (fs w))
              (with_level lv w)).
Proof.
  rewrite run_eq.
  destruct (form_of_string _) as [fm|] eqn:Hf; [|discriminate].
  destruct (level_of_string _) as [lv|] eqn:Hl; [|discriminate].
  cbv zeta.
  destruct (stat (fs w) (cl_input_file cl)) as [[bs|]| |] eqn:Hs;
    try discriminate.
  destruct (UTF8.decode bs) as [s|] eqn:Hd; [|discriminate].
  destruct (writable (fs w) (cl_output_file cl)) eqn:Hw; [|discriminate].
  destruct (UTF8.encode _) as [out|] eqn:He; [|discriminate].
  intros [= <-]. exists fm, lv, bs, s, out. repeat split; assumption.
Qed.

(** The converse: such a run ends with status 0. *)
Lemma run_succeeds cl w fm lv bs s out :
  form_of_string (default "NFC" (cl_form cl)) = Some fm ->
  level_of_string (default "INFO" (cl_log_level cl)) = Some lv ->
  stat (fs w) (cl_input_file cl) = Found (RegularFile bs) ->
  UTF8.decode bs = Some s ->
  writable (fs w) (cl_output_file cl) = true ->
  UTF8.encode (translate_newlines pf (normalize ucd fm (universal_newlines s)))
  = Some out ->
  run pf ucd cl w
  = (0, with_call INFO
          (Successfully_normalized (cl_input_file cl) (cl_output_file cl)
             (default "NFC" (cl_form cl)))
          (with_fs (<[location (cl_output_file cl) := RegularFile out]> (fs w))
             (with_level lv w))).
Proof.
  intros Hf Hl Hs Hd Hw He. rewrite run_eq, Hf, Hl. cbv zeta.
  by rewrite Hs, Hd, Hw, He.
Qed.

End Run.

End RunFacts.

(** ** Facts about normalization *)

Module HangulFacts.
Import Unicode.

Ltac ranges :=
  unfold is_jamo, is_syllable, is_L, is_V, is_T,
    SBase, LBase, VBase, TBase, LCount, VCount, TCount, NCount, SCount in *;
  repeat match goal with
    | H : _ && _ = true |- _ => apply andb_true_iff in H; destruct H
    | H : _ || _ = true |- _ => apply orb_true_iff in H; destruct H
    | H : _ && _ = false |- _ => apply andb_false_iff in H
    | H : (_ <=? _) = true |- _ => apply Z.leb_le in H
    | H : (_ <? _) = true |- _ => apply Z.ltb_lt in H
    | H : (_ <=? _) = false |- _ => apply Z.leb_gt in H
    | H : (_ <? _) = false |- _ => apply Z.ltb_ge in H
    | H : (_ =? _) = true |- _ => apply Z.eqb_eq in H
    | H : (_ =? _) = false |- _ => apply Z.eqb_neq in H
    end.

Lemma is_syllable_range c : is_syllable c = true <-> 0xAC00 <= c < 0xD7A4.
Proof.
  unfold is_syllable, SBase, SCount.
  rewrite andb_true_iff, Z.leb_le, Z.ltb_lt. lia.
Qed.

Lemma is_jamo_range c : is_jamo c = true -> 0x1100 <= c < 0x11C3.
Proof. intros H. ranges; lia. Qed.

Lemma jamo_not_syllable c : is_jamo c = true -> is_syllable c = false.
Proof.
  intros H%is_jamo_range. destruct (is_syllable c) eqn:E; [|done].
  apply is_syllable_range in E. lia.
Qed.

(** The parts of a syllable are jamo. *)
Lemma hangul_decompose_jamo c :
  is_syllable c = true -> Forall (fun d => is_jamo d = true) (hangul_decompose c).
Proof.
  intros H%is_syllable_range. unfold hangul_decompose, is_jamo.
  unfold is_L, is_V, is_T, SBase, LBase, VBase, TBase, LCount, VCount,
    TCount, NCount.
  assert (0 <= (c - 44032) / 588 < 19) by (split; [apply Z.div_pos|apply Z.div_lt_upper_bound]; lia).
  pose proof (Z.mod_pos_bound (c - 44032) 588 ltac:(lia)).
  assert (0 <= (c - 44032) mod 588 / 28 < 21)
    by (split; [apply Z.div_pos|apply Z.div_lt_upper_bound]; lia).
  pose proof (Z.mod_pos_bound (c - 44032) 28 ltac:(lia)).
  destruct (Z.eqb_spec (4519 + (c - 44032) mod 28) 4519);
    repeat first [apply List.Forall_cons | apply List.Forall_nil];
    rewrite !orb_true_iff, !andb_true_iff, !Z.leb_le, !Z.ltb_lt; lia.
Qed.

Lemma hangul_compose_syllable a b x :
  hangul_compose a b = Some x -> is_syllable x = true.
Proof.
  unfold hangul_compose. intros H. apply is_syllable_range.
  destruct (is_L a && is_V b) eqn:E1.
  - inversion H; subst; clear H. ranges. nia.
  - destruct (is_syllable a && ((a - SBase) mod TCount =? 0) && is_T b) eqn:E2;
      [|discriminate].
    inversion H; subst; clear H. clear E1. ranges.
    pose proof (Z.div_mod (a - 44032) 28 ltac:(lia)). lia.
Qed.

(** Composing two jamo, or a syllable and a trailing jamo, is undone by
    the decomposition of the result. *)
Lemma hangul_compose_decompose a b x :
  hangul_compose a b = Some x ->
  hangul_decompose x
  = (if is_syllable a then hangul_decompose a else [a]) ++ [b]
  /\ (is_syllable a = true \/ is_L a = true).
Proof.
  unfold hangul_compose. intros H.
  destruct (is_L a && is_V b) eqn:E1.
  - inversion H; subst; clear H.
    assert (is_syllable a = false) as ->.
    { apply jamo_not_syllable. unfold is_jamo.
      apply andb_true_iff in E1 as [-> _]. reflexivity. }
    split; [|right; by apply andb_true_iff in E1 as [-> _]].
    unfold hangul_decompose. ranges.
    replace (44032 + ((a - 4352) * 21 + (b - 4449)) * 28 - 44032)
      with (((a - 4352) * 21 + (b - 4449)) * 28) by lia.
    rewrite Z.mod_mul by lia. rewrite Z.add_0_r, Z.eqb_refl.
    replace 588 with (21 * 28) by lia.
    rewrite Z.div_mul_cancel_r by lia.
    rewrite Z.mul_mod_distr_r by lia.
    rewrite Z.div_mul by lia.
    replace ((a - 4352) * 21 + (b - 4449)) with ((b - 4449) + (a - 4352) * 21) by lia.
    rewrite Z.div_add by lia. rewrite Z.mod_add by lia.
    rewrite Z.div_small by lia. rewrite Z.mod_small by lia.
    simpl. repeat f_equal; lia.
  - destruct (is_syllable a && ((a - SBase) mod TCount =? 0) && is_T b) eqn:E2;
      [|discriminate].
    inversion H; subst; clear H. clear E1.
    apply andb_true_iff in E2 as [E2 E3]. apply andb_true_iff in E2 as [E2 E4].
    rewrite E2. split; [|by left].
    unfold hangul_decompose. ranges.
    pose proof (Z.div_mod (a - 44032) 28 ltac:(lia)) as Hd.
    set (q := (a - 44032) / 28) in *.
    replace (a + (b - 4519) - 44032) with ((b - 4519) + q * 28) by lia.
    replace (a - 44032) with (0 + q * 28) by lia.
    rewrite !Z.mod_add by lia.
    replace 588 with (21 * 28) by lia.
    rewrite !(Z.add_comm _ (q * 28)).
    rewrite Z.mod_small with (a := b - 4519) by lia.
    rewrite Z.mod_0_l by lia.
    assert ((q * 28 + (b - 4519)) / (21 * 28) = q * 28 / (21 * 28)) as ->.
    { rewrite (Z.mul_comm 21 28), <- !Z.div_div by lia.
      rewrite Z.div_add_l by lia. rewrite Z.div_small with (a := b - 4519) by lia.
      rewrite Z.add_0_r. by rewrite Z.div_mul by lia. }
    assert ((q * 28 + (b - 4519)) mod (21 * 28) / 28 = (q * 28 + 0) mod (21 * 28) / 28) as ->.
    { rewrite !(Z.mul_comm 21 28), !Z.rem_mul_r by lia.
      rewrite !(Z.add_comm (q * 28)), !Z.mod_add by lia.
      rewrite !Z.div_add by lia.
      rewrite Z.mod_small with (a := b - 4519) by lia.
      rewrite Z.mod_0_l by lia.
      rewrite !(Z.mul_comm 28), !Z.div_add by lia.
      rewrite Z.div_small with (a := b - 4519) by lia. reflexivity. }
    rewrite Z.eqb_refl.
    destruct (Z.eqb_spec (4519 + (b - 4519)) 4519); [lia|].
    simpl. repeat f_equal; lia.
Qed.

(** Every leading jamo starts some syllable. *)
Lemma L_in_syllable a :
  is_L a = true ->
  exists c, is_syllable c = true /\ In a (hangul_decompose c).
Proof.
  intros H. exists (SBase + (a - LBase) * NCount). split.
  - apply is_syllable_range. ranges. lia.
  - unfold hangul_decompose. ranges.
    replace (44032 + (a - 4352) * 588 - 44032) with ((a - 4352) * 588) by lia.
    rewrite Z.div_mul by lia.
    replace ((a - 4352) * 588) with ((a - 4352) * 21 * 28) by lia.
    rewrite Z.mod_mul by lia. simpl. left. lia.
Qed.

Lemma jamo_text_char c : is_jamo c = true -> text_char c.
Proof.
  intros H%is_jamo_range. split.
  - apply CodecFacts.scalar_spec. lia.
  - unfold Newlines.CR. lia.
Qed.

Lemma syllable_text_char c : is_syllable c = true -> text_char c.
Proof.
  intros H%is_syllable_range. split.
  - apply CodecFacts.scalar_spec. lia.
  - unfold Newlines.CR. lia.
Qed.

End HangulFacts.

Module NormalizeFacts.
Import Unicode HangulFacts.

Section Tables.
Variable ucd : UCD.

Abbreviation ccc := (ccc ucd).
Abbreviation decompose_char := (decompose_char ucd).
Abbreviation decompose := (decompose ucd).
Abbreviation canonical_order := (canonical_order ucd).
Abbreviation insert_mark := (insert_mark ucd).
Abbreviation compose_from := (compose_from ucd).
Abbreviation compose := (compose ucd).
Abbreviation composite := (composite ucd).
Abbreviation normalize := (normalize ucd).
Abbreviation ordered := (ordered ucd).
Abbreviation stable := (stable ucd).

(** *** The tables map a set of code points into itself *)

Section Closed.
Variable P : Z -> Prop.
Hypothesis P_closed : closed ucd P.
Hypothesis P_jamo : forall c, is_jamo c = true -> P c.
Hypothesis P_syllable : forall c, is_syllable c = true -> P c.

Lemma decompose_char_fuel_closed k n c :
  P c -> Forall P (decompose_char_fuel ucd k n c).
Proof.
  revert c. induction n as [|n IH]; intros c Hc; simpl.
  - destruct (is_syllable c) eqn:E; [|by constructor].
    eapply Forall_impl; [by apply hangul_decompose_jamo|]. auto.
  - destruct (is_syllable c) eqn:E.
    { eapply Forall_impl; [by apply hangul_decompose_jamo|]. auto. }
    destruct (decomposition ucd c) as [[compat l]|] eqn:D; [|by constructor].
    destruct (compat && negb k); [by constructor|].
    destruct P_closed as [Hd _]. specialize (Hd _ _ _ D).
    clear D. induction Hd as [|x l Hx Hl IHl]; simpl; [constructor|].
    apply Forall_app; split; [by apply IH|assumption].
Qed.

Lemma decompose_closed k s : Forall P s -> Forall P (decompose k s).
Proof.
  induction 1 as [|c s Hc _ IH]; simpl; [constructor|].
  apply Forall_app; split; [|assumption].
  by apply decompose_char_fuel_closed.
Qed.

Lemma insert_mark_Forall (Q : Z -> Prop) c s :
  Q c -> Forall Q s -> Forall Q (insert_mark c s).
Proof.
  intros Hc. induction 1 as [|d s Hd Hs IH]; simpl; [by repeat constructor|].
  destruct ((0 <? ccc d)%nat && (ccc d <? ccc c)%nat); by repeat constructor.
Qed.

Lemma canonical_order_Forall (Q : Z -> Prop) s :
  Forall Q s -> Forall Q (canonical_order s).
Proof.
  induction 1 as [|c s Hc _ IH]; simpl; [constructor|].
  by apply insert_mark_Forall.
Qed.

Lemma composite_closed a b x : composite a b = Some x -> P x.
Proof.
  unfold composite. destruct (hangul_compose a b) as [y|] eqn:H.
  - intros [= <-]. eauto using hangul_compose_syllable.
  - destruct P_closed as [_ Hc]. apply Hc.
Qed.

Lemma compose_from_closed s : forall st pending,
  P st -> Forall P pending -> Forall P s ->
  Forall P (compose_from st pending s).
Proof.
  induction s as [|c s IH]; intros st pending Hst Hp Hs; simpl.
  - constructor; [assumption|]. by apply Forall_rev.
  - inversion Hs as [|? ? Hc Hs']; subst.
    destruct (if match pending with [] => false | b :: _ => (ccc c <=? ccc b)%nat end
              then None else composite st c) as [x|] eqn:E.
    + apply IH; auto.
      destruct (match pending with [] => false | b :: _ => (ccc c <=? ccc b)%nat end);
        [discriminate|]. eauto using composite_closed.
    + destruct (ccc c =? 0)%nat.
      * constructor; [assumption|]. apply Forall_app; split.
        -- by apply Forall_rev.
        -- apply IH; auto.
      * apply IH; auto.
Qed.

Lemma compose_closed s : Forall P s -> Forall P (compose s).
Proof.
  induction 1 as [|c s Hc Hs IH]; simpl; [constructor|].
  destruct (ccc c =? 0)%nat; [|by constructor].
  by apply compose_from_closed.
Qed.

(** Normalization keeps a text within a set the tables are closed
    under. *)
Lemma normalize_closed f s : Forall P s -> Forall P (normalize f s).
Proof.
  intros H. unfold normalize.
  pose proof (canonical_order_Forall P _ (decompose_closed (is_compat f) s H)).
  destruct (is_composed f); [by apply compose_closed|assumption].
Qed.

End Closed.

(** *** Canonical ordering *)

Lemma insert_mark_comm a b r :
  (0 < ccc b < ccc a)%nat ->
  insert_mark a (insert_mark b r) = insert_mark b (insert_mark a r).
Proof.
  intros Hab. induction r as [|d r IH]; simpl.
  - replace ((0 <? ccc b)%nat && (ccc b <? ccc a)%nat) with true
      by (symmetry; apply andb_true_iff; split; apply Nat.ltb_lt; lia).
    replace ((0 <? ccc a)%nat && (ccc a <? ccc b)%nat) with false
      by (symmetry; apply andb_false_iff; right; apply Nat.ltb_ge; lia).
    reflexivity.
  - destruct ((0 <? ccc d)%nat && (ccc d <? ccc b)%nat) eqn:Edb.
    + assert ((0 <? ccc d)%nat && (ccc d <? ccc a)%nat = true) as Eda.
      { apply andb_true_iff in Edb as [H1 H2].
        apply Nat.ltb_lt in H1, H2.
        apply andb_true_iff; split; apply Nat.ltb_lt; lia. }
      rewrite Eda. simpl. rewrite Edb, Eda. by rewrite IH.
    + simpl.
      replace ((0 <? ccc b)%nat && (ccc b <? ccc a)%nat) with true
        by (symmetry; apply andb_true_iff; split; apply Nat.ltb_lt; lia).
      destruct ((0 <? ccc d)%nat && (ccc d <? ccc a)%nat) eqn:Eda; simpl.
      * by rewrite Edb.
      * replace ((0 <? ccc a)%nat && (ccc a <? ccc b)%nat) with false
          by (symmetry; apply andb_false_iff; right; apply Nat.ltb_ge; lia).
        reflexivity.
Qed.

Lemma canonical_order_app p u v :
  canonical_order u = canonical_order v ->
  canonical_order (p ++ u) = canonical_order (p ++ v).
Proof.
  intros H. induction p as [|x p IH]; simpl; [assumption|].
  unfold Unicode.canonical_order in *. simpl. by rewrite IH.
Qed.

(** A mark may pass the marks of smaller classes that follow it. *)
Lemma canonical_order_move c q t :
  Forall (fun x => (0 < ccc x < ccc c)%nat) q ->
  canonical_order (c :: q ++ t) = canonical_order (q ++ c :: t).
Proof.
  induction 1 as [|x q Hx _ IH]; [reflexivity|].
  unfold Unicode.canonical_order in *. simpl in *.
  rewrite insert_mark_comm by assumption. by rewrite IH.
Qed.

Lemma ordered_cons a s :
  ordered (a :: s) <->
  match s with b :: _ => ~ (0 < ccc b < ccc a)%nat | [] => True end /\ ordered s.
Proof. destruct s; simpl; tauto. Qed.

Lemma ordered_tail a s : ordered (a :: s) -> ordered s.
Proof. rewrite ordered_cons. tauto. Qed.

Lemma ordered_app_r l r : ordered (l ++ r) -> ordered r.
Proof. induction l as [|a l IH]; [done|]. intros H%ordered_tail. auto. Qed.

Lemma ordered_app_l l r : ordered (l ++ r) -> ordered l.
Proof.
  induction l as [|a l IH]; [done|].
  cbn [app]. rewrite !ordered_cons. intros [H1 H2]. split; [|auto].
  destruct l; [done|exact H1].
Qed.

Lemma insert_mark_ordered c s : ordered s -> ordered (insert_mark c s).
Proof.
  induction s as [|d s IH]; intros Hs; [done|].
  simpl. destruct ((0 <? ccc d)%nat && (ccc d <? ccc c)%nat) eqn:E.
  - apply andb_true_iff in E as [H1 H2]. apply Nat.ltb_lt in H1, H2.
    apply ordered_cons in Hs as [Hd Hs]. apply ordered_cons.
    split; [|auto].
    destruct s as [|e s]; simpl; [lia|].
    destruct ((0 <? ccc e)%nat && (ccc e <? ccc c)%nat); [assumption|lia].
  - apply ordered_cons. split; [|assumption].
    apply andb_false_iff in E. rewrite !Nat.ltb_ge in E. lia.
Qed.

Lemma canonical_order_ordered s : ordered (canonical_order s).
Proof.
  induction s as [|c s IH]; [done|].
  by apply insert_mark_ordered.
Qed.

Lemma canonical_order_id s : ordered s -> canonical_order s = s.
Proof.
  induction s as [|c s IH]; intros Hs; [reflexivity|].
  apply ordered_cons in Hs as [Hc Hs].
  unfold Unicode.canonical_order in *. simpl. rewrite (IH Hs).
  destruct s as [|d s]; [reflexivity|]. simpl.
  replace ((0 <? ccc d)%nat && (ccc d <? ccc c)%nat) with false; [reflexivity|].
  symmetry. apply andb_false_iff. rewrite !Nat.ltb_ge. lia.
Qed.

(** Dropping a mark that is greater than the mark before it keeps the
    order. *)
Lemma ordered_remove l b c t :
  (ccc b < ccc c)%nat ->
  ordered ((l ++ [b]) ++ c :: t) -> ordered ((l ++ [b]) ++ t).
Proof.
  intros Hbc. induction l as [|a l IH]; cbn [app].
  - rewrite !ordered_cons. intros (_ & Hc & Ht). split; [|assumption].
    destruct t as [|e t]; [done|]. lia.
  - rewrite !ordered_cons. intros [Ha Hl]. split; [|auto].
    destruct l; exact Ha.
Qed.

(** In an ordered run of marks no mark exceeds the last. *)
Lemma ordered_marks_bound l b :
  ordered (l ++ [b]) ->
  Forall (fun p => (0 < ccc p)%nat) (l ++ [b]) ->
  Forall (fun p => (ccc p <= ccc b)%nat) (l ++ [b]).
Proof.
  induction l as [|a l IH]; cbn [app]; intros Ho Hm.
  - by repeat constructor.
  - apply ordered_cons in Ho as [Ha Ho].
    inversion Hm as [|? ? Hpa Hm']; subst.
    specialize (IH Ho Hm'). constructor; [|assumption].
    destruct l as [|e l]; simpl in *.
    + inversion Hm'; subst. lia.
    + inversion IH; subst. inversion Hm'; subst. lia.
Qed.

(** *** Decomposition *)

Lemma decompose_char_syllable k c :
  is_syllable c = true -> decompose_char k c = hangul_decompose c.
Proof.
  intros H. unfold Unicode.decompose_char, decomposition_fuel. simpl.
  by rewrite H.
Qed.

Lemma decompose_char_plain k c :
  is_syllable c = false -> decomposition ucd c = None ->
  decompose_char k c = [c].
Proof.
  intros Hs Hd. unfold Unicode.decompose_char, decomposition_fuel.
  cbn [decompose_char_fuel]. by rewrite Hs, Hd.
Qed.

Lemma decompose_app k u v : decompose k (u ++ v) = decompose k u ++ decompose k v.
Proof. apply flat_map_app. Qed.

Lemma decompose_stable k s : Forall (stable k) s -> decompose k s = s.
Proof.
  induction 1 as [|c s Hc _ IH]; [reflexivity|].
  unfold Unicode.decompose in *. simpl. rewrite IH.
  unfold Unicode.stable in Hc. by rewrite Hc.
Qed.

Lemma decompose_is_stable k s :
  decomposition_full ucd k -> Forall (stable k) (decompose k s).
Proof.
  intros Hf. induction s as [|c s IH]; [constructor|].
  unfold Unicode.decompose in *. simpl. apply Forall_app; split; [|assumption].
  apply List.Forall_forall. intros d Hd. exact (Hf c d Hd).
Qed.

Lemma L_stable k a : decomposition_full ucd k -> is_L a = true -> stable k a.
Proof.
  intros Hf Ha. destruct (L_in_syllable a Ha) as (c & Hc & Hin).
  apply (Hf c). by rewrite decompose_char_syllable.
Qed.

(** A composite decomposes into what it was composed of. *)
Lemma composite_decompose k st c x :
  decomposition_full ucd k -> composition_inverse ucd k ->
  stable k c -> composite st c = Some x ->
  decompose_char k x = decompose_char k st ++ [c].
Proof.
  intros Hf Hi Hc. unfold Unicode.composite.
  destruct (hangul_compose st c) as [y|] eqn:H.
  - intros [= <-].
    rewrite (decompose_char_syllable k y) by eauto using hangul_compose_syllable.
    destruct (hangul_compose_decompose _ _ _ H) as [-> Hst].
    destruct (is_syllable st) eqn:Es.
    + by rewrite decompose_char_syllable.
    + destruct Hst as [|HL]; [done|]. by rewrite (L_stable k st Hf HL).
  - intros Hx. rewrite (Hi _ _ _ Hx). by rewrite Hc.
Qed.

(** *** Composition *)

(** Decomposing what was composed gives back, up to the order of the
    marks, the decomposed text. *)
Lemma compose_from_decompose k s : forall st pending,
  decomposition_full ucd k -> composition_inverse ucd k ->
  Forall (stable k) pending -> Forall (stable k) s ->
  Forall (fun p => (0 < ccc p)%nat) pending ->
  ordered (rev pending ++ s) ->
  canonical_order (decompose k (compose_from st pending s))
  = canonical_order (decompose_char k st ++ rev pending ++ s).
Proof.
  induction s as [|c s IH]; intros st pending Hf Hi Hp Hs Hm Ho.
  - simpl. unfold Unicode.decompose. simpl.
    fold (decompose k (rev pending)).
    rewrite decompose_stable by (by apply Forall_rev).
    by rewrite app_nil_r.
  - inversion Hs as [|? ? Hc Hs']; subst. cbn [Unicode.compose_from].
    destruct (if match pending with [] => false | b :: _ => (ccc c <=? ccc b)%nat end
              then None else composite st c) as [x|] eqn:E.
    + (* [c] combines with the starter *)
      assert (Forall (fun q => (0 < ccc q < ccc c)%nat) (rev pending)
              /\ ordered (rev pending ++ s)) as [Hq Ho'].
      { destruct pending as [|b pending]; [split; [constructor|]|].
        - by apply ordered_tail in Ho.
        - destruct (Nat.leb_spec (ccc c) (ccc b)) as [|Hbc]; [discriminate|].
          simpl in *. split; [|by eapply ordered_remove].
          apply ordered_app_l in Ho as Hl.
          assert (Forall (fun p => (0 < ccc p)%nat) (rev pending ++ [b])) as Hm'.
          { apply Forall_app; split.
            - apply Forall_rev. by inversion Hm.
            - constructor; [by inversion Hm|constructor]. }
          pose proof (ordered_marks_bound _ _ Hl Hm') as Hb.
          rewrite List.Forall_forall in *. intros q Hq.
          specialize (Hb q Hq). specialize (Hm' q Hq). simpl in *. lia. }
      assert (composite st c = Some x) as Hx.
      { destruct (match pending with [] => false | b :: _ => (ccc c <=? ccc b)%nat end);
          [discriminate|assumption]. }
      rewrite IH by assumption.
      rewrite (composite_decompose k st c x Hf Hi Hc Hx).
      rewrite <- !app_assoc. apply canonical_order_app. simpl.
      by apply canonical_order_move.
    + destruct (ccc c =? 0)%nat eqn:E0.
      * (* [c] is the next starter *)
        change (st :: rev pending ++ compose_from c [] s)
          with ([st] ++ rev pending ++ compose_from c [] s).
        rewrite !decompose_app.
        rewrite (decompose_stable k (rev pending)) by (by apply Forall_rev).
        replace (decompose k [st]) with (decompose_char k st)
          by (unfold Unicode.decompose; simpl; by rewrite app_nil_r).
        rewrite !app_assoc. apply canonical_order_app.
        assert (ordered (rev [] ++ s)) as Ho2.
        { simpl. apply ordered_app_r in Ho. by apply ordered_tail in Ho. }
        rewrite (IH c [] Hf Hi (List.Forall_nil _) Hs' (List.Forall_nil _) Ho2).
        simpl. unfold Unicode.stable in Hc. by rewrite Hc.
      * (* [c] waits after the starter *)
        assert (Forall (fun p => (0 < ccc p)%nat) (c :: pending)) as Hm2.
        { constructor; [|assumption]. apply Nat.eqb_neq in E0. lia. }
        assert (ordered (rev (c :: pending) ++ s)) as Ho2.
        { simpl. by rewrite <- app_assoc. }
        rewrite (IH st (c :: pending) Hf Hi (List.Forall_cons _ _ _ Hc Hp) Hs' Hm2 Ho2).
        simpl. by rewrite <- !app_assoc.
Qed.

Lemma compose_decompose k s :
  decomposition_full ucd k -> composition_inverse ucd k ->
  Forall (stable k) s -> ordered s ->
  canonical_order (decompose k (compose s)) = s.
Proof.
  intros Hf Hi. induction 1 as [|c s Hc Hs IH]; intros Ho; [reflexivity|].
  simpl. destruct (ccc c =? 0)%nat.
  - rewrite compose_from_decompose; try done.
    + unfold Unicode.stable in Hc. rewrite Hc. cbn [rev app].
      by apply canonical_order_id.
    + simpl. by apply ordered_tail in Ho.
  - change (c :: compose s) with ([c] ++ compose s).
    rewrite decompose_app.
    replace (decompose k [c]) with [c]
      by (unfold Unicode.decompose, Unicode.stable in *; simpl; by rewrite Hc).
    rewrite (canonical_order_app [c] _ s).
    + by apply canonical_order_id.
    + rewrite IH by (by apply ordered_tail in Ho).
      symmetry. apply canonical_order_id. by apply ordered_tail in Ho.
Qed.

(** *** Idempotence *)

(** Normalizing a normalized text changes nothing, for tables whose
    decompositions are full and whose compositions invert them. *)
Lemma normalize_idempotent f s :
  decomposition_full ucd (is_compat f) ->
  composition_inverse ucd (is_compat f) ->
  normalize f (normalize f s) = normalize f s.
Proof.
  intros Hf Hi. unfold Unicode.normalize.
  set (k := is_compat f) in *.
  set (d := canonical_order (decompose k s)).
  assert (Forall (stable k) d) as Hd
    by (apply canonical_order_Forall; by apply decompose_is_stable).
  assert (ordered d) as Ho by apply canonical_order_ordered.
  destruct (is_composed f).
  - by rewrite compose_decompose.
  - rewrite decompose_stable by assumption. by apply canonical_order_id.
Qed.

End Tables.

End NormalizeFacts.

(** ** The sample tables satisfy the table properties *)

Module SampleFacts.
Import Unicode HangulFacts NormalizeFacts.

Lemma assoc_In {A} c (t : list (Z * A)) v : assoc c t = Some v -> In (c, v) t.
Proof.
  induction t as [|[k w] t IH]; simpl; [discriminate|].
  destruct (Z.eqb_spec k c) as [->|]; [intros [= ->]; by left|].
  intros H. right. auto.
Qed.

Lemma assoc2_In a b t x : assoc2 a b t = Some x -> In (a, b, x) t.
Proof.
  induction t as [|[[k1 k2] w] t IH]; simpl; [discriminate|].
  destruct (Z.eqb_spec k1 a) as [->|], (Z.eqb_spec k2 b) as [->|]; simpl;
    try (intros H; right; by auto).
  intros [= ->]. by left.
Qed.

(** Split [In] over a list given by its elements. *)
Ltac split_In H :=
  lazymatch type of H with
  | _ \/ _ =>
      let H' := fresh in
      destruct H as [H'|H]; [simplify_eq | split_In H]
  | False => destruct H
  | In _ _ => cbn [In] in H; split_In H
  | _ => idtac
  end.

Lemma sample_decomposition c :
  decomposition sample_ucd c = assoc c sample_decompositions.
Proof. reflexivity. Qed.

Lemma sample_composition a b :
  composition sample_ucd a b = assoc2 a b sample_composites.
Proof. reflexivity. Qed.

Lemma sample_closed : closed sample_ucd text_char.
Proof.
  split.
  - intros c k l H. rewrite sample_decomposition in H.
    apply assoc_In in H. unfold sample_decompositions in H.
    split_In H;
      repeat first [apply List.Forall_cons | apply List.Forall_nil | split];
      by vm_compute.
  - intros a b x H. rewrite sample_composition in H.
    apply assoc2_In in H. unfold sample_composites in H.
    split_In H;
      repeat first [apply List.Forall_cons | apply List.Forall_nil | split];
      by vm_compute.
Qed.

Lemma jamo_plain c : is_jamo c = true -> decomposition sample_ucd c = None.
Proof.
  intros H%is_jamo_range. rewrite sample_decomposition.
  destruct (assoc c sample_decompositions) as [v|] eqn:E; [|reflexivity].
  apply assoc_In in E. unfold sample_decompositions in E.
  split_In E; lia.
Qed.

Lemma sample_decomposition_full k : decomposition_full sample_ucd k.
Proof.
  intros c d Hd.
  destruct (is_syllable c) eqn:Es.
  - rewrite decompose_char_syllable in Hd by assumption.
    pose proof (hangul_decompose_jamo c Es) as Hj.
    rewrite List.Forall_forall in Hj. specialize (Hj d Hd).
    apply decompose_char_plain; auto using jamo_not_syllable, jamo_plain.
  - destruct (decomposition sample_ucd c) as [v|] eqn:E.
    + rewrite sample_decomposition in E. apply assoc_In in E. unfold sample_decompositions in E.
      split_In E; destruct k; vm_compute in Hd; split_In Hd;
        vm_compute; reflexivity.
    + rewrite decompose_char_plain in Hd by assumption.
      destruct Hd as [<-|[]]. by apply decompose_char_plain.
Qed.

Lemma sample_composition_inverse k : composition_inverse sample_ucd k.
Proof.
  intros a b x H. rewrite sample_composition in H. apply assoc2_In in H.
  unfold sample_composites in H.
  split_In H; destruct k; vm_compute; reflexivity.
Qed.

End SampleFacts.

(** ** The properties of the specification *)

Module Claims.
Import Newlines Unicode Program Scenarios.
Import CodecFacts FileFacts RunFacts HangulFacts NormalizeFacts SampleFacts.
Local Open Scope string_scope.
Local Open Scope Z_scope.

Lemma not_a_form f :
  ~ In f ["NFC"; "NFD"; "NFKC"; "NFKD"] -> form_of_string f = None.
Proof.
  intros H. unfold form_of_string.
  destruct (String.eqb_spec f "NFC") as [->|]; [exfalso; apply H; simpl; tauto|].
  destruct (String.eqb_spec f "NFD") as [->|]; [exfalso; apply H; simpl; tauto|].
  destruct (String.eqb_spec f "NFKC") as [->|]; [exfalso; apply H; simpl; tauto|].
  destruct (String.eqb_spec f "NFKD") as [->|]; [exfalso; apply H; simpl; tauto|].
  reflexivity.
Qed.

(** *** C1: the content of the output file *)

(** C1 as stated fails: on the input "a", carriage return, "b" the run
    succeeds and writes "a", line feed, "b", while the normalization of
    the input text under NFC is the input itself. *)
Lemma C1_counterexample_carriage_return :
  exists w',
    run Posix sample_ucd (cli in_txt out_txt None) (initial_world (one_file a_CR_b))
    = (0, w') /\
    stat (fs w') out_txt = Found (RegularFile a_LF_b) /\
    (UTF8.decode a_CR_b ≫= fun s => UTF8.encode (normalize sample_ucd NFC s))
    = Some a_CR_b /\
    a_LF_b <> a_CR_b.
Proof.
  eexists. split; [vm_compute; reflexivity|].
  split; [vm_compute; reflexivity|].
  split; [vm_compute; reflexivity|discriminate].
Qed.

(** C1, amended: a run that ends with status 0 has decoded the input file
    as UTF-8, turned CR LF and lone CR into LF, normalized the text under
    the selected form, turned LF into the line separator of the platform,
    encoded the result as UTF-8, and made exactly that the content of the
    output file, creating or overwriting it. *)
Theorem C1_output_is_normalized_text pf ucd cl w w' :
  run pf ucd cl w = (0, w') ->
  exists fm bs s out,
    form_of_string (default "NFC" (cl_form cl)) = Some fm /\
    stat (fs w) (cl_input_file cl) = Found (RegularFile bs) /\
    UTF8.decode bs = Some s /\
    UTF8.encode (translate_newlines pf (normalize ucd fm (universal_newlines s)))
    = Some out /\
    fs w' = <[location (cl_output_file cl) := RegularFile out]> (fs w) /\
    stat (fs w') (cl_output_file cl) = Found (RegularFile out).
Proof.
  intros H.
  destruct (run_success pf ucd cl w w' H)
    as (fm & lv & bs & s & out & Hf & Hl & Hs & Hd & Hw & He & ->).
  exists fm, bs, s, out. repeat split; try assumption.
  cbn [fs with_call with_fs]. by apply stat_insert_target.
Qed.

Lemma C1_witness :
  let cl := cli in_txt out_txt None in
  let w := initial_world (one_file a_CR_b) in
  let w' := snd (run Posix sample_ucd cl w) in
  run Posix sample_ucd cl w = (0, w') /\
  exists fm bs s out,
    form_of_string (default "NFC" (cl_form cl)) = Some fm /\
    stat (fs w) (cl_input_file cl) = Found (RegularFile bs) /\
    UTF8.decode bs = Some s /\
    UTF8.encode (translate_newlines Posix (normalize sample_ucd fm (universal_newlines s)))
    = Some out /\
    fs w' = <[location (cl_output_file cl) := RegularFile out]> (fs w) /\
    stat (fs w') (cl_output_file cl) = Found (RegularFile out).
Proof.
  intros cl w w'.
  assert (run Posix sample_ucd cl w = (0, w')) as H by (vm_compute; reflexivity).
  split; [exact H|].
  exact (C1_output_is_normalized_text Posix sample_ucd cl w w' H).
Defined.

(** *** C2: a form outside the four *)

(** C2 as stated fails: with [--form NFX] the process ends with status
    2, not 1, and nothing is logged. *)
Lemma C2_counterexample_exit_status :
  run Posix sample_ucd (cli in_txt out_txt (Some "NFX"))
    (initial_world (one_file a_CR_b))
  = (2, initial_world (one_file a_CR_b)).
Proof. rewrite run_eq. reflexivity. Qed.

(** C2, amended: for a form outside NFC, NFD, NFKC and NFKD the
    argument parser ends the run with status 2, and [normalize_unicode]
    called with it raises ValueError, an InvalidArgument; either way
    before any I/O: the world, its files and its log are unchanged. *)
Theorem C2_invalid_form_rejected pf ucd cl w f :
  cl_form cl = Some f ->
  ~ In f ["NFC"; "NFD"; "NFKC"; "NFKD"] ->
  run pf ucd cl w = (2, w) /\
  forall inp out,
    normalize_unicode pf ucd inp out f w
    = (Raised (ValueError ("Invalid normalization form: " ++ f)), w) /\
    kind_of_exn (ValueError ("Invalid normalization form: " ++ f)) = InvalidArgument.
Proof.
  intros Hcl Hf%not_a_form. split.
  - rewrite run_eq, Hcl. change (default "NFC" (Some f)) with f.
    by rewrite Hf.
  - intros inp out. by rewrite normalize_unicode_eq, Hf.
Qed.

Lemma C2_witness :
  let cl := cli in_txt out_txt (Some "NFX") in
  let w := initial_world (one_file a_CR_b) in
  run Posix sample_ucd cl w = (2, w) /\
  forall inp out,
    normalize_unicode Posix sample_ucd inp out "NFX" w
    = (Raised (ValueError ("Invalid normalization form: " ++ "NFX")), w) /\
    kind_of_exn (ValueError ("Invalid normalization form: " ++ "NFX")) = InvalidArgument.
Proof.
  intros cl w.
  apply (C2_invalid_form_rejected Posix sample_ucd cl w "NFX").
  - reflexivity.
  - simpl. intros [H|[H|[H|[H|[]]]]]; discriminate.
Defined.

(** *** C3: input that is not UTF-8 *)

(** In [main], [except UnicodeDecodeError] stands behind
    [except ValueError], which takes every UnicodeDecodeError. *)
Lemma UnicodeDecodeError_is_ValueError e :
  isinstance e CUnicodeDecodeError = true -> isinstance e CValueError = true.
Proof. by destruct e. Qed.

(** C3: the code departs from the claim.  When the bytes of the input
    file are not valid UTF-8, the run ends with status 1 and no file is
    created or modified, and [normalize_unicode] reports a decode error
    and raises UnicodeDecodeError; but [main] reports that exception
    under [except ValueError], as an InvalidArgument, for a
    UnicodeDecodeError is a ValueError and [except ValueError] stands
    first: the reports of the run are DecodeError, then InvalidArgument,
    and the one [main] makes, the last, is InvalidArgument. *)
Theorem C3_decode_error_ends_as_ValueError pf ucd cl w bs fm lv :
  form_of_string (default "NFC" (cl_form cl)) = Some fm ->
  level_of_string (default "INFO" (cl_log_level cl)) = Some lv ->
  stat (fs w) (cl_input_file cl) = Found (RegularFile bs) ->
  UTF8.decode bs = None ->
  exists w',
    run pf ucd cl w = (1, w') /\
    fs w' = fs w /\
    fst (normalize_unicode pf ucd (cl_input_file cl) (cl_output_file cl)
           (default "NFC" (cl_form cl)) w) = Raised UnicodeDecodeError /\
    calls w' = (calls w ++ [(ERROR, Unicode_decode_error UnicodeDecodeError);
                            (ERROR, Main_ValueError UnicodeDecodeError)])%list /\
    reported (calls w') = (reported (calls w) ++ [DecodeError; InvalidArgument])%list /\
    kind_of_exn UnicodeDecodeError = InvalidArgument /\
    last (reported (calls w')) = Some InvalidArgument.
Proof.
  intros Hf Hl Hs Hd. eexists. split.
  { rewrite run_eq, Hf, Hl. cbv zeta. rewrite Hs, Hd. reflexivity. }
  cbn [fs calls with_call with_level].
  split; [reflexivity|].
  split; [by rewrite normalize_unicode_eq, Hf, Hs, Hd|].
  split; [by rewrite <- app_assoc|].
  assert (reported ((calls w ++ [(ERROR, Unicode_decode_error UnicodeDecodeError)])
                      ++ [(ERROR, Main_ValueError UnicodeDecodeError)])
          = (reported (calls w) ++ [DecodeError; InvalidArgument])%list) as Hr.
  { unfold reported. by rewrite <- app_assoc, omap_app. }
  split; [exact Hr|]. split; [reflexivity|].
  rewrite Hr.
  change [DecodeError; InvalidArgument]
    with ([DecodeError] ++ [InvalidArgument])%list.
  by rewrite app_assoc, last_snoc.
Qed.

Lemma C3_witness :
  let cl := cli in_txt out_txt None in
  let w := initial_world (one_file not_utf8) in
  exists w',
    run Posix sample_ucd cl w = (1, w') /\
    fs w' = fs w /\
    fst (normalize_unicode Posix sample_ucd (cl_input_file cl) (cl_output_file cl)
           (default "NFC" (cl_form cl)) w) = Raised UnicodeDecodeError /\
    calls w' = (calls w ++ [(ERROR, Unicode_decode_error UnicodeDecodeError);
                            (ERROR, Main_ValueError UnicodeDecodeError)])%list /\
    reported (calls w') = (reported (calls w) ++ [DecodeError; InvalidArgument])%list /\
    kind_of_exn UnicodeDecodeError = InvalidArgument /\
    last (reported (calls w')) = Some InvalidArgument.
Proof.
  intros cl w.
  apply (C3_decode_error_ends_as_ValueError Posix sample_ucd cl w not_utf8 NFC INFO);
    vm_compute; reflexivity.
Defined.

(** *** C4: an input path that does not exist *)

(** C4 as stated fails: for a path that does not exist the run reports
    InvalidInput, the report of [main]'s check that the input is a file;
    NotFound is not among the reported kinds. *)
Lemma C4_counterexample_not_reported_as_NotFound :
  exists w',
    run Posix sample_ucd (cli in_txt out_txt None) (initial_world ∅) = (1, w') /\
    calls w' = [(ERROR, Input_file_is_not_a_valid_file in_txt)] /\
    reported (calls w') = [InvalidInput] /\
    ~ In NotFound (reported (calls w')).
Proof.
  eexists. split; [rewrite run_eq; reflexivity|].
  cbn. repeat split. intros [H|[]]. discriminate.
Qed.

(** C4, amended: for an input path that does not exist the run ends with
    status 1 at [main]'s check that the input is a file, with the one
    error record "is not a valid file" (InvalidInput) and no file touched;
    [normalize_unicode] called directly raises FileNotFoundError, a
    NotFound, before any I/O. *)
Theorem C4_missing_input_fails pf ucd cl w fm lv :
  form_of_string (default "NFC" (cl_form cl)) = Some fm ->
  level_of_string (default "INFO" (cl_log_level cl)) = Some lv ->
  (forall n, stat (fs w) (cl_input_file cl) <> Found n) ->
  run pf ucd cl w
  = (1, with_call ERROR (Input_file_is_not_a_valid_file (cl_input_file cl))
          (with_level lv w)) /\
  normalize_unicode pf ucd (cl_input_file cl) (cl_output_file cl)
    (default "NFC" (cl_form cl)) w
  = (Raised (FileNotFoundError (cl_input_file cl)), w) /\
  kind_of_exn (FileNotFoundError (cl_input_file cl)) = NotFound.
Proof.
  intros Hf Hl Hs. split; [|split; [|reflexivity]].
  - rewrite run_eq, Hf, Hl. cbv zeta.
    destruct (stat (fs w) (cl_input_file cl)) as [n| |] eqn:E;
      [by destruct (Hs n)|reflexivity|reflexivity].
  - rewrite normalize_unicode_eq, Hf.
    destruct (stat (fs w) (cl_input_file cl)) as [n| |] eqn:E;
      [by destruct (Hs n)|reflexivity|reflexivity].
Qed.

Lemma C4_witness :
  let cl := cli in_txt out_txt None in
  let w := initial_world ∅ in
  (forall n, stat (fs w) (cl_input_file cl) <> Found n) /\
  run Posix sample_ucd cl w
  = (1, with_call ERROR (Input_file_is_not_a_valid_file (cl_input_file cl))
          (with_level INFO w)) /\
  normalize_unicode Posix sample_ucd (cl_input_file cl) (cl_output_file cl)
    (default "NFC" (cl_form cl)) w
  = (Raised (FileNotFoundError (cl_input_file cl)), w) /\
  kind_of_exn (FileNotFoundError (cl_input_file cl)) = NotFound.
Proof.
  intros cl w.
  assert (forall n, stat (fs w) (cl_input_file cl) <> Found n) as H
    by (intros n; vm_compute; discriminate).
  split; [exact H|].
  exact (C4_missing_input_fails Posix sample_ucd cl w NFC INFO eq_refl eq_refl H).
Defined.

(** *** C5: an input path that is not a regular file *)

(** C5: for an input path that exists and is not a regular file, a
    directory for one, the run ends with status 1 at [main]'s check that
    the input is a file, with the one error record "is not a valid file":
    the run reports InvalidInput and no NotFound, and touches no file. *)
Theorem C5_not_a_regular_file_fails pf ucd cl w fm lv n :
  form_of_string (default "NFC" (cl_form cl)) = Some fm ->
  level_of_string (default "INFO" (cl_log_level cl)) = Some lv ->
  stat (fs w) (cl_input_file cl) = Found n ->
  (forall bs, n <> RegularFile bs) ->
  let report := (ERROR, Input_file_is_not_a_valid_file (cl_input_file cl)) in
  exists w',
    run pf ucd cl w = (1, w') /\
    fs w' = fs w /\
    calls w' = (calls w ++ [report])%list /\
    reported (calls w') = (reported (calls w) ++ [InvalidInput])%list /\
    ~ In NotFound (reported [report]).
Proof.
  intros Hf Hl Hs Hn report. eexists. split.
  { rewrite run_eq, Hf, Hl. cbv zeta. rewrite Hs.
    destruct n as [bs|]; [by destruct (Hn bs)|reflexivity]. }
  cbn [fs calls with_call with_level].
  split; [reflexivity|]. split; [reflexivity|]. split.
  - unfold reported. by rewrite omap_app.
  - cbn. intros [H|[]]. discriminate.
Qed.

Lemma C5_witness :
  let cl := cli in_txt out_txt None in
  let w := initial_world {[ in_txt := Directory ]} in
  let report := (ERROR, Input_file_is_not_a_valid_file (cl_input_file cl)) in
  stat (fs w) (cl_input_file cl) = Found Directory /\
  exists w',
    run Posix sample_ucd cl w = (1, w') /\
    fs w' = fs w /\
    calls w' = (calls w ++ [report])%list /\
    reported (calls w') = (reported (calls w) ++ [InvalidInput])%list /\
    ~ In NotFound (reported [report]).
Proof.
  intros cl w report.
  assert (stat (fs w) (cl_input_file cl) = Found Directory) as H
    by (vm_compute; reflexivity).
  split; [exact H|].
  apply (C5_not_a_regular_file_fails Posix sample_ucd cl w NFC INFO Directory
           eq_refl eq_refl H).
  intros bs. discriminate.
Defined.

(** *** Texts read from files *)

Lemma read_text_chars bs s :
  UTF8.decode bs = Some s -> Forall text_char (universal_newlines s).
Proof.
  intros H%decode_scalar.
  pose proof (universal_newlines_scalar s H) as H1.
  pose proof (universal_newlines_no_CR s) as H2. unfold no_CR in H2.
  rewrite List.Forall_forall in *. intros c Hc. split; auto.
Qed.

Lemma normalize_text_chars ucd fm t :
  closed ucd text_char -> Forall text_char t ->
  Forall text_char (normalize ucd fm t).
Proof.
  intros Hc. apply normalize_closed; auto using jamo_text_char, syllable_text_char.
Qed.


Lemma text_chars_no_CR t : Forall text_char t -> no_CR t.
Proof. intros H. eapply Forall_impl; [exact H|]. by intros c [? ?]. Qed.


(** *** C6: a second run changes nothing *)

(** C6: for tables whose decompositions are full, whose compositions
    invert them and which produce no carriage return, a second run with the
    same form on the output of a successful run succeeds wherever it can
    open its output, and writes the bytes the first run wrote. *)
Theorem C6_second_run_writes_the_same pf ucd cl w w1 fm out2 :
  closed ucd text_char ->
  decomposition_full ucd (is_compat fm) ->
  composition_inverse ucd (is_compat fm) ->
  form_of_string (default "NFC" (cl_form cl)) = Some fm ->
  run pf ucd cl w = (0, w1) ->
  writable (fs w1) out2 = true ->
  exists w2 out,
    run pf ucd (again cl out2) w1 = (0, w2) /\
    stat (fs w1) (cl_output_file cl) = Found (RegularFile out) /\
    stat (fs w2) out2 = Found (RegularFile out).
Proof.
  intros Hc Hfull Hinv Hfm H1 Hw2.
  destruct (run_success pf ucd cl w w1 H1)
    as (fm' & lv & bs & s & out & Hf & Hl & Hs & Hd & Hw & He & ->).
  rewrite Hfm in Hf. injection Hf as <-.
  set (n := normalize ucd fm (universal_newlines s)) in *.
  assert (Forall text_char n) as Hn
    by (apply normalize_text_chars; eauto using read_text_chars).
  cbn [fs with_call with_fs] in *.
  assert (stat (<[location (cl_output_file cl) := RegularFile out]> (fs w)) (cl_output_file cl)
          = Found (RegularFile out)) as Hs1 by (by apply stat_insert_target).
  assert (UTF8.encode
            (translate_newlines pf
               (normalize ucd fm
                  (universal_newlines (translate_newlines pf n)))) = Some out) as He2.
  { rewrite universal_translate by (by apply text_chars_no_CR).
    subst n. by rewrite normalize_idempotent. }
  eexists. exists out. split; [|split; [exact Hs1|]].
  - apply (run_succeeds pf ucd (again cl out2) _ fm lv out (translate_newlines pf n) out);
      try assumption.
    by apply UTF8Facts.decode_encode.
  - cbn [fs with_call with_fs again cl_output_file].
    by apply stat_insert_target.
Qed.

Lemma C6_witness :
  let cl := cli in_txt out_txt None in
  let w := initial_world (one_file [0x73; 0xCC; 0x87; 0xCC; 0xA3; 0x0D; 0x0A]) in
  let w1 := snd (run Windows sample_ucd cl w) in
  run Windows sample_ucd cl w = (0, w1) /\
  exists w2 out,
    run Windows sample_ucd (again cl ["again.txt"]) w1 = (0, w2) /\
    stat (fs w1) (cl_output_file cl) = Found (RegularFile out) /\
    stat (fs w2) ["again.txt"] = Found (RegularFile out).
Proof.
  intros cl w w1.
  assert (run Windows sample_ucd cl w = (0, w1)) as H by (vm_compute; reflexivity).
  split; [exact H|].
  apply (C6_second_run_writes_the_same Windows sample_ucd cl w w1 NFC ["again.txt"]
           sample_closed (sample_decomposition_full false)
           (sample_composition_inverse false) eq_refl H).
  vm_compute. reflexivity.
Defined.

(** *** C7: the output depends on the input bytes and the form only *)

(** C7: two successful runs with the same form on input files of the same
    content write the same bytes, whatever the paths, the other files, the
    log level and the log so far. *)
Theorem C7_same_input_same_output pf ucd cl1 cl2 w1 w2 w1' w2' bs :
  stat (fs w1) (cl_input_file cl1) = Found (RegularFile bs) ->
  stat (fs w2) (cl_input_file cl2) = Found (RegularFile bs) ->
  default "NFC" (cl_form cl1) = default "NFC" (cl_form cl2) ->
  run pf ucd cl1 w1 = (0, w1') ->
  run pf ucd cl2 w2 = (0, w2') ->
  exists out,
    stat (fs w1') (cl_output_file cl1) = Found (RegularFile out) /\
    stat (fs w2') (cl_output_file cl2) = Found (RegularFile out).
Proof.
  intros Hb1 Hb2 Hform H1 H2.
  destruct (run_success pf ucd cl1 w1 w1' H1)
    as (fm1 & lv1 & bs1 & s1 & out1 & Hf1 & _ & Hs1 & Hd1 & Hw1 & He1 & ->).
  destruct (run_success pf ucd cl2 w2 w2' H2)
    as (fm2 & lv2 & bs2 & s2 & out2 & Hf2 & _ & Hs2 & Hd2 & Hw2 & He2 & ->).
  rewrite Hb1 in Hs1. injection Hs1 as <-.
  rewrite Hb2 in Hs2. injection Hs2 as <-.
  rewrite Hform, Hf2 in Hf1. injection Hf1 as <-.
  rewrite Hd1 in Hd2. injection Hd2 as <-.
  rewrite He1 in He2. injection He2 as <-.
  exists out1. cbn [fs with_call with_fs].
  split; by apply stat_insert_target.
Qed.

Lemma C7_witness :
  let cl1 := cli in_txt out_txt (Some "NFD") in
  let cl2 := {| cl_input_file := ["data"; "text"]; cl_output_file := ["copy"];
                cl_form := Some "NFD"; cl_log_level := Some "ERROR" |} in
  let bs := [0xC7; 0x98; 0x0A] in
  let w1 := initial_world (one_file bs) in
  let w2 := initial_world (<[ ["data"; "text"] := RegularFile bs ]>
                              {[ ["data"] := Directory ]}) in
  exists out,
    stat (fs (snd (run Posix sample_ucd cl1 w1))) (cl_output_file cl1)
    = Found (RegularFile out) /\
    stat (fs (snd (run Posix sample_ucd cl2 w2))) (cl_output_file cl2)
    = Found (RegularFile out).
Proof.
  intros cl1 cl2 bs w1 w2.
  apply (C7_same_input_same_output Posix sample_ucd cl1 cl2 w1 w2 _ _ bs);
    vm_compute; reflexivity.
Defined.

(** *** C8: "cafe" with a combining acute accent *)

Lemma cafe_entries ucd :
  agrees_on_cafe ucd ->
  decompose ucd false cafe_decomposed = cafe_decomposed /\
  canonical_order ucd cafe_decomposed = cafe_decomposed.
Proof.
  intros (Hd & Hc & H301 & _). unfold cafe_decomposed in *.
  repeat match goal with
         | H : Forall _ (_ :: _) |- _ =>
             let H' := fresh in apply Forall_cons in H as [H' H]
         end.
  split.
  - unfold decompose. cbn [flat_map].
    rewrite !decompose_char_plain by (reflexivity || assumption). reflexivity.
  - apply canonical_order_id. cbn [ordered]. unfold ccc.
    repeat match goal with H : combining ucd _ = _ |- _ => rewrite H; clear H end.
    repeat split; lia.
Qed.

Lemma normalize_cafe_NFC ucd :
  agrees_on_cafe ucd -> normalize ucd NFC cafe_decomposed = cafe_precomposed.
Proof.
  intros Hu. destruct (cafe_entries ucd Hu) as [Hdec Hord].
  destruct Hu as (_ & Hc & H301 & H1 & H2 & H3 & H4).
  repeat match goal with
         | H : Forall _ (_ :: _) |- _ =>
             let H' := fresh in apply Forall_cons in H as [H' H]
         end.
  unfold normalize. cbn [is_compat is_composed]. rewrite Hdec, Hord.
  unfold cafe_decomposed, cafe_precomposed.
  cbn [compose compose_from]. unfold ccc, composite.
  repeat match goal with H : combining ucd _ = _ |- _ => rewrite H end.
  change (hangul_compose 99 97) with (@None Z).
  change (hangul_compose 97 102) with (@None Z).
  change (hangul_compose 102 101) with (@None Z).
  change (hangul_compose 101 769) with (@None Z).
  rewrite H1, H2, H3, H4. reflexivity.
Qed.

Lemma normalize_cafe_NFD ucd :
  agrees_on_cafe ucd -> normalize ucd NFD cafe_decomposed = cafe_decomposed.
Proof.
  intros Hu. destruct (cafe_entries ucd Hu) as [Hdec Hord].
  unfold normalize. cbn [is_compat is_composed]. by rewrite Hdec, Hord.
Qed.

(** C8: on the text U+0063 U+0061 U+0066 U+0065 U+0301, for tables that
    hold the entries of the Unicode Character Database for these code
    points, the run with form NFC ends with status 0 and writes the text
    U+0063 U+0061 U+0066 U+00E9, and the run with form NFD ends with status
    0 and writes the input. *)
Theorem C8_cafe pf ucd w inp out bs :
  agrees_on_cafe ucd ->
  UTF8.encode cafe_decomposed = Some bs ->
  stat (fs w) inp = Found (RegularFile bs) ->
  writable (fs w) out = true ->
  (exists w' out_bytes,
     run pf ucd (cli inp out (Some "NFC")) w = (0, w') /\
     UTF8.encode cafe_precomposed = Some out_bytes /\
     stat (fs w') out = Found (RegularFile out_bytes)) /\
  (exists w',
     run pf ucd (cli inp out (Some "NFD")) w = (0, w') /\
     stat (fs w') out = Found (RegularFile bs)).
Proof.
  intros Hu Hb Hs Hw.
  assert (UTF8.decode bs = Some cafe_decomposed) as Hd by (by apply UTF8Facts.decode_encode).
  assert (universal_newlines cafe_decomposed = cafe_decomposed) as Hn by reflexivity.
  split.
  - eexists. exists [0x63; 0x61; 0x66; 0xC3; 0xA9].
    split; [|split; [reflexivity|]].
    + apply (run_succeeds pf ucd (cli inp out (Some "NFC")) w NFC INFO bs
               cafe_decomposed [0x63; 0x61; 0x66; 0xC3; 0xA9]);
        try done.
      cbn [cli cl_form default].
      rewrite Hn, normalize_cafe_NFC by assumption. by destruct pf.
    + cbn [fs with_call with_fs cli cl_output_file].
      by apply stat_insert_target.
  - eexists. split.
    + apply (run_succeeds pf ucd (cli inp out (Some "NFD")) w NFD INFO bs
               cafe_decomposed bs);
        try done.
      rewrite Hn, normalize_cafe_NFD by assumption.
      replace (translate_newlines pf cafe_decomposed) with cafe_decomposed
        by (by destruct pf).
      exact Hb.
    + cbn [fs with_call with_fs cli cl_output_file].
      by apply stat_insert_target.
Qed.

Lemma sample_agrees_on_cafe : agrees_on_cafe sample_ucd.
Proof. unfold agrees_on_cafe, cafe_decomposed. repeat split; repeat constructor. Qed.

Lemma C8_witness :
  let bs := [0x63; 0x61; 0x66; 0x65; 0xCC; 0x81] in
  let w := initial_world (one_file bs) in
  (exists w' out_bytes,
     run Posix sample_ucd (cli in_txt out_txt (Some "NFC")) w = (0, w') /\
     UTF8.encode cafe_precomposed = Some out_bytes /\
     stat (fs w') out_txt = Found (RegularFile out_bytes)) /\
  (exists w',
     run Posix sample_ucd (cli in_txt out_txt (Some "NFD")) w = (0, w') /\
     stat (fs w') out_txt = Found (RegularFile bs)).
Proof.
  intros bs w.
  apply (C8_cafe Posix sample_ucd w in_txt out_txt bs sample_agrees_on_cafe);
    vm_compute; reflexivity.
Defined.

(** *** C9: the output path is the input path *)



(** *** C10: the input file is left alone *)

(** C10 as stated fails: the output path [data/../in.txt] differs from
    the input path [in.txt] and names the same file; the run ends with
    status 0 and has rewritten the input file. *)
Lemma C10_counterexample_parent_component :
  let cl := cli in_txt ["data"; ".."; "in.txt"] None in
  let w := initial_world (<[ ["data"] := Directory ]> (one_file a_CR_b)) in
  cl_output_file cl <> cl_input_file cl /\
  fst (run Posix sample_ucd cl w) = 0 /\
  stat (fs w) (cl_input_file cl) = Found (RegularFile a_CR_b) /\
  stat (fs (snd (run Posix sample_ucd cl w))) (cl_input_file cl)
  = Found (RegularFile a_LF_b) /\
  a_LF_b <> a_CR_b.
Proof.
  intros cl w. split; [discriminate|].
  split; [vm_compute; reflexivity|].
  split; [vm_compute; reflexivity|].
  split; [vm_compute; reflexivity|discriminate].
Qed.

(** C10, amended: when the output path and the input path name different
    places once their [".."] parts are resolved, what is at the input
    path after the run is what was there before, whether the run
    succeeded or failed. *)
Theorem C10_input_untouched pf ucd cl w :
  location (cl_output_file cl) <> location (cl_input_file cl) ->
  stat (fs (snd (run pf ucd cl w))) (cl_input_file cl)
  = stat (fs w) (cl_input_file cl).
Proof.
  intros Hne. rewrite run_eq.
  destruct (form_of_string _) as [fm|]; [|reflexivity].
  destruct (level_of_string _) as [lv|]; [|reflexivity].
  cbv zeta.
  destruct (stat (fs w) (cl_input_file cl)) as [[bs|]| |] eqn:Hs;
    try (cbn; by rewrite Hs).
  destruct (UTF8.decode bs) as [s|]; [|cbn; by rewrite Hs].
  destruct (writable (fs w) (cl_output_file cl)) eqn:Hw; [|cbn; by rewrite Hs].
  destruct (UTF8.encode _) as [out|];
    cbn [snd fs with_call with_fs]; by apply stat_insert_other.
Qed.

Lemma C10_witness :
  let cl := cli in_txt ["data"; ".."; "out.txt"] None in
  let w := initial_world (<[ ["data"] := Directory ]> (one_file a_CR_b)) in
  location (cl_output_file cl) <> location (cl_input_file cl) /\
  fst (run Posix sample_ucd cl w) = 0 /\
  stat (fs (snd (run Posix sample_ucd cl w))) (cl_input_file cl)
  = stat (fs w) (cl_input_file cl).
Proof.
  intros cl w.
  assert (location (cl_output_file cl) <> location (cl_input_file cl)) as H
    by (vm_compute; discriminate).
  split; [exact H|].
  split; [vm_compute; reflexivity|].
  exact (C10_input_untouched Posix sample_ucd cl w H).
Defined.

End Claims.

(** ** The codec, from bytes back to bytes *)

Module CodecRoundTrip.
Import UTF8 UTF8Facts CodecFacts.

Ltac bytes_eq :=
  repeat f_equal; Z.div_mod_to_equations; lia.

Lemma encode_char_1 b0 :
  0 <= b0 <= 0x7F -> encode_char b0 = Some [b0].
Proof.
  intros H. unfold encode_char, is_scalar, is_surrogate. zcmp. reflexivity.
Qed.

Lemma encode_char_2 b0 b1 :
  0xC2 <= b0 <= 0xDF -> 0x80 <= b1 < 0xC0 ->
  encode_char ((b0 - 0xC0) * 64 + (b1 - 0x80)) = Some [b0; b1].
Proof.
  intros H0 H1. unfold encode_char, is_scalar, is_surrogate. zcmp.
  cbn [negb andb]. bytes_eq.
Qed.

Lemma encode_char_3 b0 b1 b2 :
  0xE0 <= b0 <= 0xEF ->
  (if b0 =? 0xE0 then 0xA0 else 0x80) <= b1 <= (if b0 =? 0xED then 0x9F else 0xBF) ->
  0x80 <= b2 < 0xC0 ->
  encode_char ((b0 - 0xE0) * 4096 + (b1 - 0x80) * 64 + (b2 - 0x80)) = Some [b0; b1; b2].
Proof.
  intros H0 H1 H2. unfold encode_char, is_scalar, is_surrogate.
  assert (b0 < 0xED \/ b0 = 0xED \/ 0xED < b0) as Hc by lia.
  revert H1. destruct (Z.eqb_spec b0 0xE0), (Z.eqb_spec b0 0xED); intros H1;
    destruct Hc as [Hc|[Hc|Hc]]; try lia;
    zcmp; cbn [negb andb]; bytes_eq.
Qed.

Lemma encode_char_4 b0 b1 b2 b3 :
  0xF0 <= b0 <= 0xF4 ->
  (if b0 =? 0xF0 then 0x90 else 0x80) <= b1 <= (if b0 =? 0xF4 then 0x8F else 0xBF) ->
  0x80 <= b2 < 0xC0 -> 0x80 <= b3 < 0xC0 ->
  encode_char ((b0 - 0xF0) * 262144 + (b1 - 0x80) * 4096 + (b2 - 0x80) * 64 + (b3 - 0x80))
  = Some [b0; b1; b2; b3].
Proof.
  intros H0 H1 H2 H3. unfold encode_char, is_scalar, is_surrogate.
  revert H1. destruct (Z.eqb_spec b0 0xF0), (Z.eqb_spec b0 0xF4); intros H1;
    zcmp; cbn [negb andb]; bytes_eq.
Qed.

Lemma in_range_spec lo hi b : in_range lo hi b = true <-> lo <= b <= hi.
Proof. unfold in_range. rewrite andb_true_iff, !Z.leb_le. tauto. Qed.

Lemma is_cont_spec b : is_cont b = true <-> 0x80 <= b < 0xC0.
Proof. unfold is_cont. rewrite andb_true_iff, Z.leb_le, Z.ltb_lt. tauto. Qed.

(** Encoding what the decoder accepted gives the bytes back: the decoder
    accepts nothing but what the encoder writes. *)
Lemma encode_decode bs s : decode bs = Some s -> encode s = Some bs.
Proof.
  remember (length bs) as n eqn:Hn. revert bs s Hn.
  induction n as [n IH] using lt_wf_ind. intros bs s Hn H.
  destruct bs as [|b0 r0]; simpl in H; [by inversion H|].
  simpl in Hn.
  destruct (in_range 0 127 b0) eqn:R1.
  { apply fmap_Some in H as (t & Ht & ->).
    apply in_range_spec in R1. simpl.
    rewrite encode_char_1 by assumption.
    by rewrite (IH (length r0) ltac:(lia) r0 t eq_refl Ht). }
  destruct (in_range 194 223 b0) eqn:R2.
  { destruct r0 as [|b1 r1]; [discriminate|].
    destruct (is_cont b1) eqn:C1; [|discriminate].
    apply fmap_Some in H as (t & Ht & ->).
    apply in_range_spec in R2. apply is_cont_spec in C1. simpl.
    rewrite encode_char_2 by assumption.
    by rewrite (IH (length r1) ltac:(simpl in *; lia) r1 t eq_refl Ht). }
  destruct (in_range 224 239 b0) eqn:R3.
  { destruct r0 as [|b1 [|b2 r2]]; try discriminate.
    match type of H with (if ?c then _ else _) = _ => destruct c eqn:C1 end;
      [|discriminate].
    apply fmap_Some in H as (t & Ht & ->).
    apply andb_true_iff in C1 as [C1 C2].
    apply in_range_spec in R3, C1. apply is_cont_spec in C2. simpl.
    rewrite encode_char_3 by assumption.
    by rewrite (IH (length r2) ltac:(simpl in *; lia) r2 t eq_refl Ht). }
  destruct (in_range 240 244 b0) eqn:R4; [|discriminate].
  destruct r0 as [|b1 [|b2 [|b3 r3]]]; try discriminate.
  match type of H with (if ?c then _ else _) = _ => destruct c eqn:C1 end;
    [|discriminate].
  apply fmap_Some in H as (t & Ht & ->).
  apply andb_true_iff in C1 as [C1 C3]. apply andb_true_iff in C1 as [C1 C2].
  apply in_range_spec in R4, C1. apply is_cont_spec in C2, C3. simpl.
  rewrite encode_char_4 by assumption.
  by rewrite (IH (length r3) ltac:(simpl in *; lia) r3 t eq_refl Ht).
Qed.

End CodecRoundTrip.

(** ** More about runs *)

Module MoreRunFacts.
Import Newlines Unicode Program Scenarios Observations.
Import CodecFacts FileFacts RunFacts HangulFacts NormalizeFacts SampleFacts.
Local Open Scope string_scope.
Local Open Scope Z_scope.

Section Run.
Variable pf : platform.
Variable ucd : UCD.

(** [main] ends the way [run] says: by returning, or by SystemExit. *)
Lemma main_eq cl w :
  main pf ucd cl w
  = (match fst (run pf ucd cl w) with
     | 0 => Returned tt
     | c => Raised (SystemExit c)
     end, snd (run pf ucd cl w)).
Proof.
  rewrite run_eq. unfold main. unfold bind at 1. rewrite parse_args_eq.
  destruct (form_of_string _) as [fm|] eqn:Hf; [|reflexivity].
  destruct (level_of_string _) as [lv|] eqn:Hl; [|reflexivity].
  unfold bind at 1, setLevel_name. cbn [args_of log_level]. rewrite Hl.
  unfold setLevel. cbn [args_of input_file output_file form].
  unfold try_except, bind at 1, is_file, bind at 1, get_fs, ret.
  cbn [fs with_level].
  destruct (stat (fs w) (cl_input_file cl)) as [[bs|]| |] eqn:Hs;
    cbn [negb]; try reflexivity.
  unfold bind at 1. rewrite normalize_unicode_eq, Hf. cbn [fs with_level].
  rewrite Hs.
  destruct (UTF8.decode bs) as [s|] eqn:Hd; [|reflexivity].
  cbv zeta.
  destruct (writable (fs w) (cl_output_file cl)) eqn:Hw.
  - destruct (UTF8.encode _) as [b|] eqn:He; reflexivity.
  - unfold open_w_error.
    destruct (stat (fs w) (cl_output_file cl)) as [[?|]| |]; reflexivity.
Qed.

(** Under tables that produce text characters only, the normalized text
    of a decoded file can always be encoded. *)
Lemma encode_normalized fm bs s :
  closed ucd text_char -> UTF8.decode bs = Some s ->
  is_Some (UTF8.encode
             (translate_newlines pf (normalize ucd fm (universal_newlines s)))).
Proof.
  intros Hc Hd. apply encode_scalar, translate_newlines_scalar.
  eapply Forall_impl;
    [apply normalize_closed with (P := text_char);
       eauto using jamo_text_char, syllable_text_char|by intros c [? ?]].
  pose proof (universal_newlines_scalar s (decode_scalar _ _ Hd)) as H1.
  pose proof (universal_newlines_no_CR s) as H2. unfold no_CR in H2.
  rewrite List.Forall_forall in *. intros c Hc'. split; auto.
Qed.

End Run.

Lemma translate_newlines_posix s : translate_newlines Posix s = s.
Proof.
  unfold translate_newlines. induction s as [|c s IH]; [reflexivity|].
  cbn [flat_map]. rewrite IH. by destruct (c =? LF) eqn:E; [apply Z.eqb_eq in E as ->|].
Qed.

(** The encoder writes a carriage return byte only for a carriage return. *)
Lemma encode_no_CR_byte s bs :
  UTF8.encode s = Some bs -> no_CR s -> Forall (fun b => b <> CR) bs.
Proof.
  revert bs. induction s as [|c s IH]; intros bs H Hs; simpl in H.
  - injection H as <-. constructor.
  - destruct (UTF8.encode_char c) as [b|] eqn:Ec; [|discriminate].
    destruct (UTF8.encode s) as [r|] eqn:Er; [|discriminate].
    injection H as <-. inversion Hs as [|? ? Hc Hs']; subst.
    apply Forall_app; split; [|by apply IH].
    unfold UTF8.encode_char in Ec. unfold CR in *.
    destruct (negb (UTF8.is_scalar c)); [discriminate|].
    destruct (c <? 128) eqn:E0; [injection Ec as <-; by repeat constructor|].
    apply Z.ltb_ge in E0.
    destruct (c <? 2048) eqn:E1.
    { injection Ec as <-. apply Z.ltb_lt in E1.
      repeat constructor; Z.div_mod_to_equations; lia. }
    apply Z.ltb_ge in E1.
    destruct (c <? 65536) eqn:E2; injection Ec as <-;
      repeat constructor; Z.div_mod_to_equations; lia.
Qed.

End MoreRunFacts.

(** ** More about normalization *)

Module MoreNormalizeFacts.
Import Unicode HangulFacts NormalizeFacts.

Section Tables.
Variable ucd : UCD.

Lemma decomposed_text k s :
  decomposition_full ucd k ->
  Forall (stable ucd k) (canonical_order ucd (decompose ucd k s)) /\
  ordered ucd (canonical_order ucd (decompose ucd k s)).
Proof.
  intros Hf. split.
  - apply canonical_order_Forall. by apply decompose_is_stable.
  - apply canonical_order_ordered.
Qed.

(** Decomposing and ordering again what a form of the same kind of
    decomposition returned gives the decomposed text back. *)
Lemma redecompose f s :
  decomposition_full ucd (is_compat f) ->
  composition_inverse ucd (is_compat f) ->
  canonical_order ucd (decompose ucd (is_compat f) (normalize ucd f s))
  = canonical_order ucd (decompose ucd (is_compat f) s).
Proof.
  intros Hf Hi. unfold normalize.
  destruct (decomposed_text (is_compat f) s Hf) as [Hd Ho].
  destruct (is_composed f).
  - by apply compose_decompose.
  - rewrite decompose_stable by assumption. by apply canonical_order_id.
Qed.

Lemma insert_mark_Permutation c s : insert_mark ucd c s ≡ₚ c :: s.
Proof.
  induction s as [|d s IH]; simpl; [reflexivity|].
  destruct ((0 <? ccc ucd d)%nat && (ccc ucd d <? ccc ucd c)%nat); [|reflexivity].
  rewrite IH. apply Permutation_swap.
Qed.

(** Canonical ordering moves code points and neither drops nor adds one. *)
Lemma canonical_order_Permutation s : canonical_order ucd s ≡ₚ s.
Proof.
  induction s as [|c s IH]; [reflexivity|].
  unfold canonical_order in *. simpl. rewrite insert_mark_Permutation.
  by rewrite IH.
Qed.

End Tables.
End MoreNormalizeFacts.

(** ** Further properties of the program *)

Module Extras.
Import Newlines Unicode Program Scenarios Observations.
Import CodecFacts FileFacts RunFacts HangulFacts NormalizeFacts SampleFacts.
Import CodecRoundTrip MoreRunFacts MoreNormalizeFacts.
Local Open Scope string_scope.
Local Open Scope Z_scope.

(** *** How a run ends *)

(** X1: [main] lets no exception escape but SystemExit: it returns, or it
    exits with status 1 or 2. *)
Theorem main_returns_or_exits pf ucd cl w :
  fst (main pf ucd cl w) = Returned tt \/
  fst (main pf ucd cl w) = Raised (SystemExit 1) \/
  fst (main pf ucd cl w) = Raised (SystemExit 2).
Proof.
  rewrite main_eq, run_eq. cbn [fst].
  destruct (form_of_string _) as [fm|]; [|auto].
  destruct (level_of_string _) as [lv|]; [|auto].
  cbv zeta.
  destruct (stat (fs w) (cl_input_file cl)) as [[bs|]| |]; auto.
  destruct (UTF8.decode bs) as [s|]; auto.
  destruct (writable (fs w) (cl_output_file cl)); auto.
  destruct (UTF8.encode _) as [out|]; auto.
Qed.

(** X2: a [--log_level] outside DEBUG, INFO, WARNING, ERROR and
    CRITICAL ends the run with status 2 before anything is done: no file
    and no log record has changed, whatever the other arguments are. *)
Theorem invalid_log_level_rejected pf ucd cl w l :
  cl_log_level cl = Some l ->
  ~ In l ["DEBUG"; "INFO"; "WARNING"; "ERROR"; "CRITICAL"] ->
  run pf ucd cl w = (2, w).
Proof.
  intros Hcl Hl. rewrite run_eq, Hcl.
  change (default "INFO" (Some l)) with l.
  assert (level_of_string l = None) as ->.
  { unfold level_of_string.
    destruct (String.eqb_spec l "DEBUG") as [->|]; [exfalso; apply Hl; simpl; tauto|].
    destruct (String.eqb_spec l "INFO") as [->|]; [exfalso; apply Hl; simpl; tauto|].
    destruct (String.eqb_spec l "WARNING") as [->|]; [exfalso; apply Hl; simpl; tauto|].
    destruct (String.eqb_spec l "ERROR") as [->|]; [exfalso; apply Hl; simpl; tauto|].
    destruct (String.eqb_spec l "CRITICAL") as [->|]; [exfalso; apply Hl; simpl; tauto|].
    reflexivity. }
  by destruct (form_of_string _).
Qed.

Lemma invalid_log_level_rejected_witness :
  let cl := set_log_level "debug" (cli in_txt out_txt (Some "NFD")) in
  let w := initial_world (one_file a_CR_b) in
  run Posix sample_ucd cl w = (2, w).
Proof.
  intros cl w.
  apply (invalid_log_level_rejected Posix sample_ucd cl w "debug").
  - reflexivity.
  - simpl. intros [H|[H|[H|[H|[H|[]]]]]]; discriminate.
Defined.

(** X4: the output is opened only after the whole input has been read
    and decoded: when an option is invalid, or the input is no regular
    file of valid UTF-8, or the output cannot be opened, the run ends
    with a status other than 0 and every file is as it was. *)
Theorem files_kept_until_the_output_is_open pf ucd cl w :
  ~ options_valid cl \/
  (forall bs s, stat (fs w) (cl_input_file cl) = Found (RegularFile bs) ->
                UTF8.decode bs <> Some s) \/
  writable (fs w) (cl_output_file cl) = false ->
  fst (run pf ucd cl w) <> 0 /\ fs (snd (run pf ucd cl w)) = fs w.
Proof.
  intros H. rewrite run_eq. unfold options_valid in H.
  destruct (form_of_string _) as [fm|]; [|by split].
  destruct (level_of_string _) as [lv|]; [|by split].
  cbv zeta.
  destruct (stat (fs w) (cl_input_file cl)) as [[bs|]| |]; try by split.
  destruct (UTF8.decode bs) as [s|] eqn:Hd; try by split.
  destruct (writable (fs w) (cl_output_file cl)); [|by split].
  exfalso. destruct H as [H|[H|H]].
  - apply H. split; eauto.
  - exact (H bs s eq_refl Hd).
  - discriminate.
Qed.

Lemma files_kept_until_the_output_is_open_witness :
  let cl := cli in_txt [ "no"; "such"; "dir"; "out.txt" ] None in
  let w := initial_world (one_file a_CR_b) in
  writable (fs w) (cl_output_file cl) = false /\
  fst (run Posix sample_ucd cl w) <> 0 /\
  fs (snd (run Posix sample_ucd cl w)) = fs w.
Proof.
  intros cl w.
  assert (writable (fs w) (cl_output_file cl) = false) as H
    by (vm_compute; reflexivity).
  split; [exact H|].
  apply (files_kept_until_the_output_is_open Posix sample_ucd cl w).
  right. right. exact H.
Defined.

(** X5: whatever the run does, every file and directory at a place
    other than the one the output path names is afterwards what it was
    before. *)
Theorem other_places_untouched pf ucd cl w q n :
  location q <> location (cl_output_file cl) ->
  stat (fs w) q = Found n ->
  stat (fs (snd (run pf ucd cl w))) q = Found n.
Proof.
  intros Hne Hq. rewrite run_eq.
  destruct (form_of_string _) as [fm|]; [|assumption].
  destruct (level_of_string _) as [lv|]; [|assumption].
  cbv zeta.
  destruct (stat (fs w) (cl_input_file cl)) as [[bs|]| |]; try assumption.
  destruct (UTF8.decode bs) as [s|]; try assumption.
  destruct (writable (fs w) (cl_output_file cl)) eqn:Hw; try assumption.
  destruct (UTF8.encode _) as [out|];
    cbn [snd fs with_call with_fs]; apply stat_insert_other; auto.
Qed.

Lemma other_places_untouched_witness :
  let cl := cli in_txt ["data"; ".."; "data"; "out.txt"] None in
  let w := initial_world (<[ ["data"; "old.txt"] := RegularFile [0x61] ]>
                            (<[ ["data"] := Directory ]> (one_file a_CR_b))) in
  location ["data"; "old.txt"] <> location (cl_output_file cl) /\
  stat (fs w) ["data"; "old.txt"] = Found (RegularFile [0x61]) /\
  fst (run Posix sample_ucd cl w) = 0 /\
  stat (fs (snd (run Posix sample_ucd cl w))) ["data"; "old.txt"]
  = Found (RegularFile [0x61]).
Proof.
  intros cl w.
  assert (location ["data"; "old.txt"] <> location (cl_output_file cl)) as H1
    by (vm_compute; discriminate).
  assert (stat (fs w) ["data"; "old.txt"] = Found (RegularFile [0x61])) as H2
    by (vm_compute; reflexivity).
  split; [exact H1|]. split; [exact H2|].
  split; [vm_compute; reflexivity|].
  exact (other_places_untouched Posix sample_ucd cl w _ _ H1 H2).
Defined.

(** *** Failures of the write *)

(** X6: when the output path is a directory, the run reads and normalizes
    the input, fails at opening the output with IsADirectoryError, logs it
    as an OS error in [normalize_unicode] and again in [main], ends with
    status 1 and leaves the files as they were. *)
Theorem output_is_a_directory pf ucd cl w bs s :
  options_valid cl ->
  stat (fs w) (cl_input_file cl) = Found (RegularFile bs) ->
  UTF8.decode bs = Some s ->
  stat (fs w) (cl_output_file cl) = Found Directory ->
  let e := IsADirectoryError (cl_output_file cl) in
  exists w',
    run pf ucd cl w = (1, w') /\
    fs w' = fs w /\
    calls w' = (calls w ++ [(ERROR, OS_error e); (ERROR, Main_OSError e)])%list /\
    reported [(ERROR, OS_error e); (ERROR, Main_OSError e)] = [IOError; IOError].
Proof.
  intros [[fm Hf] [lv Hl]] Hs Hd Ho e. eexists. split.
  { rewrite run_eq, Hf, Hl. cbv zeta. rewrite Hs, Hd.
    unfold writable, open_w_error. rewrite Ho. reflexivity. }
  cbn [fs calls with_call with_level]. rewrite <- app_assoc. by repeat split.
Qed.

Lemma output_is_a_directory_witness :
  let cl := cli in_txt ["data"] None in
  let w := initial_world (<[ ["data"] := Directory ]> (one_file a_CR_b)) in
  let e := IsADirectoryError (cl_output_file cl) in
  exists w',
    run Posix sample_ucd cl w = (1, w') /\
    fs w' = fs w /\
    calls w' = (calls w ++ [(ERROR, OS_error e); (ERROR, Main_OSError e)])%list /\
    reported [(ERROR, OS_error e); (ERROR, Main_OSError e)] = [IOError; IOError].
Proof.
  intros cl w.
  apply (output_is_a_directory Posix sample_ucd cl w a_CR_b [0x61; 0x0D; 0x62]).
  - split; vm_compute; eauto.
  - vm_compute; reflexivity.
  - vm_compute; reflexivity.
  - vm_compute; reflexivity.
Defined.

(** X7: when the directory of the output path does not exist, the run
    fails at opening the output with FileNotFoundError: it is the output
    that is reported as not found, in [normalize_unicode] and again in
    [main]; the status is 1 and the files are as they were. *)
Theorem output_directory_missing pf ucd cl w bs s :
  options_valid cl ->
  stat (fs w) (cl_input_file cl) = Found (RegularFile bs) ->
  UTF8.decode bs = Some s ->
  stat (fs w) (cl_output_file cl) = Missing ->
  stat (fs w) (parent (cl_output_file cl)) = Missing ->
  let e := FileNotFoundError (cl_output_file cl) in
  exists w',
    run pf ucd cl w = (1, w') /\
    fs w' = fs w /\
    calls w' = (calls w ++ [(ERROR, File_not_found e);
                            (ERROR, Main_FileNotFoundError e)])%list /\
    reported [(ERROR, File_not_found e); (ERROR, Main_FileNotFoundError e)]
    = [NotFound; NotFound].
Proof.
  intros [[fm Hf] [lv Hl]] Hs Hd Ho Hp e. eexists. split.
  { rewrite run_eq, Hf, Hl. cbv zeta. rewrite Hs, Hd.
    unfold writable, open_w_error. rewrite Ho, Hp. reflexivity. }
  cbn [fs calls with_call with_level]. rewrite <- app_assoc. by repeat split.
Qed.

Lemma output_directory_missing_witness :
  let cl := cli in_txt ["results"; "out.txt"] None in
  let w := initial_world (one_file a_CR_b) in
  let e := FileNotFoundError (cl_output_file cl) in
  exists w',
    run Posix sample_ucd cl w = (1, w') /\
    fs w' = fs w /\
    calls w' = (calls w ++ [(ERROR, File_not_found e);
                            (ERROR, Main_FileNotFoundError e)])%list /\
    reported [(ERROR, File_not_found e); (ERROR, Main_FileNotFoundError e)]
    = [NotFound; NotFound].
Proof.
  intros cl w.
  apply (output_directory_missing Posix sample_ucd cl w a_CR_b [0x61; 0x0D; 0x62]).
  - split; vm_compute; eauto.
  - vm_compute; reflexivity.
  - vm_compute; reflexivity.
  - vm_compute; reflexivity.
  - vm_compute; reflexivity.
Defined.

(** *** The log *)

(** X8: the log level changes what is emitted and nothing else: two runs
    that differ in a valid [--log_level] only end with the same status,
    the same files and the same logging calls. *)
Theorem log_level_changes_nothing_else pf ucd cl w l1 l2 :
  is_Some (level_of_string l1) -> is_Some (level_of_string l2) ->
  let r1 := run pf ucd (set_log_level l1 cl) w in
  let r2 := run pf ucd (set_log_level l2 cl) w in
  fst r1 = fst r2 /\ fs (snd r1) = fs (snd r2) /\ calls (snd r1) = calls (snd r2).
Proof.
  intros [lv1 H1] [lv2 H2] r1 r2. subst r1 r2. rewrite !run_eq.
  cbn [set_log_level cl_form cl_log_level cl_input_file cl_output_file].
  change (default "INFO" (Some l1)) with l1.
  change (default "INFO" (Some l2)) with l2. rewrite H1, H2.
  destruct (form_of_string _) as [fm|]; [|by repeat split].
  cbv zeta.
  destruct (stat (fs w) (cl_input_file cl)) as [[bs|]| |]; try by repeat split.
  destruct (UTF8.decode bs) as [s|]; try by repeat split.
  destruct (writable (fs w) (cl_output_file cl)); try by repeat split.
  destruct (UTF8.encode _) as [out|]; by repeat split.
Qed.

Lemma log_level_changes_nothing_else_witness :
  let cl := cli in_txt out_txt None in
  let w := initial_world (one_file not_utf8) in
  let r1 := run Posix sample_ucd (set_log_level "DEBUG" cl) w in
  let r2 := run Posix sample_ucd (set_log_level "CRITICAL" cl) w in
  fst r1 = fst r2 /\ fs (snd r1) = fs (snd r2) /\ calls (snd r1) = calls (snd r2).
Proof.
  intros cl w.
  apply (log_level_changes_nothing_else Posix sample_ucd cl w "DEBUG" "CRITICAL");
    vm_compute; eauto.
Defined.

Lemma emitted_call lv l m w :
  logger_level w = lv ->
  stream (with_call l m w) = (stream w ++ emitted lv [(l, m)])%list.
Proof.
  intros <-. unfold emitted. cbn.
  destruct (level_value (logger_level w) <=? level_value l);
    [reflexivity|by rewrite app_nil_r].
Qed.

(** X9: what a run emits is what it logs, filtered by the level the
    logger has at the end of the run: the new records of the stream are
    the new logging calls at or above that level, in order. *)
Theorem stream_is_filtered_calls pf ucd cl w :
  let w' := snd (run pf ucd cl w) in
  exists new,
    calls w' = (calls w ++ new)%list /\
    stream w' = (stream w ++ emitted (logger_level w') new)%list.
Proof.
  cbv zeta. rewrite run_eq.
  destruct (form_of_string _) as [fm|];
    [|exists []; by rewrite !app_nil_r].
  destruct (level_of_string _) as [lv|];
    [|exists []; by rewrite !app_nil_r].
  cbv zeta.
  assert (forall l m w0, logger_level w0 = lv ->
            calls (with_call l m w0) = (calls w0 ++ [(l, m)])%list /\
            stream (with_call l m w0) = (stream w0 ++ emitted lv [(l, m)])%list /\
            logger_level (with_call l m w0) = lv) as one.
  { intros l m w0 H. split; [reflexivity|]. split; [by apply emitted_call|exact H]. }
  assert (forall l1 m1 l2 m2 w0, logger_level w0 = lv ->
            calls (with_call l2 m2 (with_call l1 m1 w0))
            = (calls w0 ++ [(l1, m1); (l2, m2)])%list /\
            stream (with_call l2 m2 (with_call l1 m1 w0))
            = (stream w0 ++ emitted lv [(l1, m1); (l2, m2)])%list /\
            logger_level (with_call l2 m2 (with_call l1 m1 w0)) = lv) as two.
  { intros l1 m1 l2 m2 w0 H.
    destruct (one l1 m1 w0 H) as (Hc1 & Hs1 & Hl1).
    destruct (one l2 m2 _ Hl1) as (Hc2 & Hs2 & Hl2).
    rewrite Hc2, Hs2, Hc1, Hs1, <- !app_assoc. repeat split; try assumption.
    f_equal. unfold emitted. cbn.
    destruct (level_value lv <=? level_value l1),
      (level_value lv <=? level_value l2); reflexivity. }
  destruct (stat (fs w) (cl_input_file cl)) as [[bs|]| |].
  2-4: eexists [_]; cbn [snd];
       destruct (one ERROR (Input_file_is_not_a_valid_file (cl_input_file cl))
                   (with_level lv w) eq_refl) as (-> & -> & ->); by split.
  destruct (UTF8.decode bs) as [s|].
  2: { eexists [_; _]. cbn [snd].
       destruct (two ERROR (Unicode_decode_error UnicodeDecodeError)
                   ERROR (Main_ValueError UnicodeDecodeError)
                   (with_level lv w) eq_refl) as (-> & -> & ->). by split. }
  destruct (writable (fs w) (cl_output_file cl)).
  2: { eexists [_; _]. cbn [snd].
       match goal with
       | |- context [with_call ?l2 ?m2 (with_call ?l1 ?m1 (with_level lv w))] =>
           destruct (two l1 m1 l2 m2 (with_level lv w) eq_refl) as (-> & -> & ->)
       end. by split. }
  destruct (UTF8.encode _) as [out|].
  - eexists [_]. cbn [snd].
    match goal with
    | |- context [with_call ?l1 ?m1 (with_fs ?f (with_level lv w))] =>
        destruct (one l1 m1 (with_fs f (with_level lv w)) eq_refl) as (-> & -> & ->)
    end. by split.
  - eexists [_; _]. cbn [snd].
    match goal with
    | |- context [with_call ?l2 ?m2 (with_call ?l1 ?m1 (with_fs ?f (with_level lv w)))] =>
        destruct (two l1 m1 l2 m2 (with_fs f (with_level lv w)) eq_refl)
          as (-> & -> & ->)
    end. by split.
Qed.

(** X10: a run that succeeds makes one logging call, the INFO record that
    names the input path, the output path and the form; a run that fails
    with status 1 makes one or two calls, all at ERROR; a run that ends
    with status 2 makes none. *)
Theorem calls_by_status pf ucd cl w :
  let c := fst (run pf ucd cl w) in
  let w' := snd (run pf ucd cl w) in
  exists new,
    calls w' = (calls w ++ new)%list /\
    (c = 0 -> new = [(INFO, Successfully_normalized (cl_input_file cl)
                              (cl_output_file cl) (default "NFC" (cl_form cl)))]) /\
    (c = 1 -> (length new = 1 \/ length new = 2)%nat /\
              Forall (fun r => fst r = ERROR /\ is_Some (kind_of_message (snd r))) new) /\
    (c = 2 -> new = []).
Proof.
  cbv zeta. rewrite run_eq.
  destruct (form_of_string _) as [fm|];
    [|exists []; rewrite app_nil_r; repeat split; discriminate].
  destruct (level_of_string _) as [lv|];
    [|exists []; rewrite app_nil_r; repeat split; discriminate].
  cbv zeta.
  destruct (stat (fs w) (cl_input_file cl)) as [[bs|]| |].
  2-4: eexists [_]; cbn; split; [reflexivity|];
       repeat split; try discriminate; eauto; repeat constructor; eauto.
  destruct (UTF8.decode bs) as [s|].
  2: { eexists [_; _]. cbn. rewrite <- app_assoc. split; [reflexivity|].
       repeat split; try discriminate; eauto; repeat constructor; eauto. }
  destruct (writable (fs w) (cl_output_file cl)).
  2: { cbv zeta.
       destruct (isinstance (open_w_error (fs w) (cl_output_file cl))
                   CFileNotFoundError);
         eexists [_; _]; cbn; rewrite <- app_assoc; (split; [reflexivity|]);
         repeat split; try discriminate; eauto; repeat constructor; eauto. }
  destruct (UTF8.encode _) as [out|].
  - eexists [_]. cbn. split; [reflexivity|]. repeat split; discriminate.
  - eexists [_; _]. cbn. rewrite <- app_assoc. split; [reflexivity|].
    repeat split; try discriminate; eauto; repeat constructor; eauto.
Qed.

(** *** What is written *)

(** X11: an empty input file gives an empty output file, under every
    form, on every platform and for all tables. *)
Theorem empty_input_gives_empty_output pf ucd cl w :
  options_valid cl ->
  stat (fs w) (cl_input_file cl) = Found (RegularFile []) ->
  writable (fs w) (cl_output_file cl) = true ->
  exists w',
    run pf ucd cl w = (0, w') /\
    stat (fs w') (cl_output_file cl) = Found (RegularFile []).
Proof.
  intros [[fm Hf] [lv Hl]] Hs Hw. eexists. split.
  - apply (run_succeeds pf ucd cl w fm lv [] [] []); try done.
    by destruct fm.
  - cbn [fs with_call with_fs]. by apply stat_insert_target.
Qed.

Lemma empty_input_gives_empty_output_witness :
  let cl := cli in_txt out_txt (Some "NFKC") in
  let w := initial_world (one_file []) in
  exists w',
    run Windows sample_ucd cl w = (0, w') /\
    stat (fs w') (cl_output_file cl) = Found (RegularFile []).
Proof.
  intros cl w.
  apply (empty_input_gives_empty_output Windows sample_ucd cl w).
  - split; vm_compute; eauto.
  - vm_compute; reflexivity.
  - vm_compute; reflexivity.
Defined.

(** X12: the file a successful run leaves at the output path is valid
    UTF-8: it decodes, to scalar values. *)
Theorem output_is_valid_utf8 pf ucd cl w w' :
  run pf ucd cl w = (0, w') ->
  exists out t,
    stat (fs w') (cl_output_file cl) = Found (RegularFile out) /\
    UTF8.decode out = Some t /\
    Forall UTF8.scalar t.
Proof.
  intros H.
  destruct (run_success pf ucd cl w w' H)
    as (fm & lv & bs & s & out & Hf & Hl & Hs & Hd & Hw & He & ->).
  exists out. eexists. split; [|split].
  - cbn [fs with_call with_fs]. by apply stat_insert_target.
  - by apply UTF8Facts.decode_encode.
  - by eapply encode_Some_scalar.
Qed.

Lemma output_is_valid_utf8_witness :
  let cl := cli in_txt out_txt (Some "NFD") in
  let w := initial_world (one_file [0xC7; 0x98; 0x0D; 0x0A]) in
  let w' := snd (run Windows sample_ucd cl w) in
  run Windows sample_ucd cl w = (0, w') /\
  exists out t,
    stat (fs w') (cl_output_file cl) = Found (RegularFile out) /\
    UTF8.decode out = Some t /\
    Forall UTF8.scalar t.
Proof.
  intros cl w w'.
  assert (run Windows sample_ucd cl w = (0, w')) as H by (vm_compute; reflexivity).
  split; [exact H|].
  exact (output_is_valid_utf8 Windows sample_ucd cl w w' H).
Defined.

(** X13: on POSIX, for tables that produce text characters only (scalar
    values, no carriage return), the file a successful run writes holds no
    carriage return byte: every line ending of the input has become a line
    feed. *)
Theorem posix_output_has_no_CR ucd cl w w' :
  closed ucd text_char ->
  run Posix ucd cl w = (0, w') ->
  exists out,
    stat (fs w') (cl_output_file cl) = Found (RegularFile out) /\
    no_CR_byte out.
Proof.
  intros Hc H.
  destruct (run_success Posix ucd cl w w' H)
    as (fm & lv & bs & s & out & Hf & Hl & Hs & Hd & Hw & He & ->).
  exists out. split.
  - cbn [fs with_call with_fs]. by apply stat_insert_target.
  - rewrite translate_newlines_posix in He.
    apply (encode_no_CR_byte _ _ He).
    eapply Forall_impl;
      [apply normalize_closed with (P := text_char);
         eauto using jamo_text_char, syllable_text_char|by intros c [? ?]].
    pose proof (universal_newlines_scalar s (decode_scalar _ _ Hd)) as H1.
    pose proof (universal_newlines_no_CR s) as H2. unfold no_CR in H2.
    rewrite List.Forall_forall in *. intros c Hc'. split; auto.
Qed.

Lemma posix_output_has_no_CR_witness :
  let cl := cli in_txt out_txt None in
  let w := initial_world (one_file [0x61; 0x0D; 0x0A; 0x62; 0x0D; 0x63]) in
  let w' := snd (run Posix sample_ucd cl w) in
  run Posix sample_ucd cl w = (0, w') /\
  exists out,
    stat (fs w') (cl_output_file cl) = Found (RegularFile out) /\
    no_CR_byte out.
Proof.
  intros cl w w'.
  assert (run Posix sample_ucd cl w = (0, w')) as H by (vm_compute; reflexivity).
  split; [exact H|].
  exact (posix_output_has_no_CR sample_ucd cl w w' sample_closed H).
Defined.

(** X14: on POSIX, a file whose text has no carriage return and is
    already in the selected form is written back byte for byte; when the
    output path is the input path the run leaves the files exactly as they
    were. *)
Theorem normalized_file_is_kept ucd cl w bs t fm :
  form_of_string (default "NFC" (cl_form cl)) = Some fm ->
  is_Some (level_of_string (default "INFO" (cl_log_level cl))) ->
  stat (fs w) (cl_input_file cl) = Found (RegularFile bs) ->
  UTF8.decode bs = Some t ->
  no_CR t ->
  normalize ucd fm t = t ->
  writable (fs w) (cl_output_file cl) = true ->
  exists w',
    run Posix ucd cl w = (0, w') /\
    stat (fs w') (cl_output_file cl) = Found (RegularFile bs) /\
    (cl_output_file cl = cl_input_file cl -> fs w' = fs w).
Proof.
  intros Hf [lv Hl] Hs Hd Hcr Hn Hw. eexists. split; [|split].
  - apply (run_succeeds Posix ucd cl w fm lv bs t bs); try done.
    rewrite universal_newlines_id, Hn, translate_newlines_posix by assumption.
    by apply encode_decode.
  - cbn [fs with_call with_fs]. by apply stat_insert_target.
  - intros E. cbn [fs with_call with_fs]. rewrite E.
    apply insert_id. by apply stat_lookup.
Qed.

Lemma normalized_file_is_kept_witness :
  let cl := cli in_txt in_txt (Some "NFC") in
  let bs := [0xE1; 0xB9; 0xA9; 0x0A] in
  let w := initial_world (one_file bs) in
  exists w',
    run Posix sample_ucd cl w = (0, w') /\
    stat (fs w') (cl_output_file cl) = Found (RegularFile bs) /\
    (cl_output_file cl = cl_input_file cl -> fs w' = fs w).
Proof.
  intros cl bs w.
  apply (normalized_file_is_kept sample_ucd cl w bs [0x1E69; 0x0A] NFC).
  - vm_compute; reflexivity.
  - vm_compute; eauto.
  - vm_compute; reflexivity.
  - vm_compute; reflexivity.
  - repeat constructor; discriminate.
  - vm_compute; reflexivity.
  - vm_compute; reflexivity.
Defined.

(** *** Runs one after the other *)

(** X15: a run under one form followed by a run under a form with the
    same kind of decomposition (NFC and NFD, or NFKC and NFKD) writes what
    the second form alone would write for the original input. *)
Theorem chained_runs pf ucd cl w w1 f1 f2 fm1 fm2 out2 :
  closed ucd text_char ->
  decomposition_full ucd (is_compat fm2) ->
  composition_inverse ucd (is_compat fm2) ->
  cl_form cl = Some f1 ->
  form_of_string f1 = Some fm1 ->
  form_of_string f2 = Some fm2 ->
  is_compat fm1 = is_compat fm2 ->
  run pf ucd cl w = (0, w1) ->
  writable (fs w1) out2 = true ->
  exists w2 bs s out,
    run pf ucd (set_run (cl_output_file cl) out2 f2 cl) w1 = (0, w2) /\
    stat (fs w) (cl_input_file cl) = Found (RegularFile bs) /\
    UTF8.decode bs = Some s /\
    UTF8.encode (translate_newlines pf (normalize ucd fm2 (universal_newlines s)))
    = Some out /\
    stat (fs w2) out2 = Found (RegularFile out).
Proof.
  intros Hc Hfull Hinv Hcl Hf1 Hf2 Hk H1 Hw2.
  destruct (run_success pf ucd cl w w1 H1)
    as (fm' & lv & bs & s & out1 & Hf & Hl & Hs & Hd & Hw & He & ->).
  rewrite Hcl in Hf. change (default "NFC" (Some f1)) with f1 in Hf.
  rewrite Hf1 in Hf. injection Hf as <-.
  set (t := universal_newlines s) in *.
  assert (no_CR (normalize ucd fm1 t)) as Hcr.
  { eapply Forall_impl;
      [apply normalize_closed with (P := text_char);
         eauto using jamo_text_char, syllable_text_char|by intros c [? ?]].
    pose proof (universal_newlines_scalar s (decode_scalar _ _ Hd)) as H2.
    pose proof (universal_newlines_no_CR s) as H3. unfold no_CR in H3.
    rewrite List.Forall_forall in *. intros c Hc'. split; auto. }
  destruct (encode_normalized pf ucd fm2 bs s Hc Hd) as [out He2].
  cbn [fs with_call with_fs] in *.
  eexists. exists bs, s, out. split; [|repeat split; try assumption].
  - apply (run_succeeds pf ucd _ _ fm2 lv out1
             (translate_newlines pf (normalize ucd fm1 t)) out);
      cbn [set_run cl_form cl_log_level cl_input_file cl_output_file fs
             with_call with_fs]; try assumption.
    + by apply stat_insert_target.
    + by apply UTF8Facts.decode_encode.
    + rewrite universal_translate by assumption.
      assert (normalize ucd fm2 (normalize ucd fm1 t) = normalize ucd fm2 t) as ->;
        [|assumption].
      unfold normalize at 1 3. rewrite <- Hk in *. by rewrite redecompose.
  - cbn [fs with_call with_fs set_run cl_output_file].
    by apply stat_insert_target.
Qed.

Lemma chained_runs_witness :
  let cl := cli in_txt out_txt (Some "NFC") in
  let w := initial_world (one_file [0x73; 0xCC; 0x87; 0xCC; 0xA3; 0x0A]) in
  let w1 := snd (run Posix sample_ucd cl w) in
  run Posix sample_ucd cl w = (0, w1) /\
  exists w2 bs s out,
    run Posix sample_ucd (set_run (cl_output_file cl) ["nfd.txt"] "NFD" cl) w1
    = (0, w2) /\
    stat (fs w) (cl_input_file cl) = Found (RegularFile bs) /\
    UTF8.decode bs = Some s /\
    UTF8.encode (translate_newlines Posix (normalize sample_ucd NFD (universal_newlines s)))
    = Some out /\
    stat (fs w2) ["nfd.txt"] = Found (RegularFile out).
Proof.
  intros cl w w1.
  assert (run Posix sample_ucd cl w = (0, w1)) as H by (vm_compute; reflexivity).
  split; [exact H|].
  apply (chained_runs Posix sample_ucd cl w w1 "NFC" "NFD" NFC NFD ["nfd.txt"]
           sample_closed (sample_decomposition_full false)
           (sample_composition_inverse false) eq_refl eq_refl eq_refl eq_refl H).
  vm_compute. reflexivity.
Defined.

(** *** [normalize_unicode] called directly *)

(** X16: [normalize_unicode] ends in one of three ways. It returns, having
    written the output file and logged the success at INFO. Or it raises
    the ValueError of an unknown form or the FileNotFoundError of a missing
    input, unlogged and with nothing changed. Or it raises an exception
    met while reading, normalizing or writing, after logging it once at
    ERROR; when that exception comes from reading the input, no file has
    changed. *)
Theorem normalize_unicode_outcomes pf ucd inp out f w :
  let r := normalize_unicode pf ucd inp out f w in
  (fst r = Returned tt /\
   calls (snd r) = (calls w ++ [(INFO, Successfully_normalized inp out f)])%list /\
   exists b, fs (snd r) = <[location out := RegularFile b]> (fs w)) \/
  (exists e,
     fst r = Raised e /\ snd r = w /\
     (e = ValueError ("Invalid normalization form: " ++ f) \/
      e = FileNotFoundError inp)) \/
  (exists e m,
     fst r = Raised e /\ isinstance e CException = true /\
     calls (snd r) = (calls w ++ [(ERROR, m)])%list /\
     is_Some (kind_of_message m) /\
     (e = UnicodeDecodeError \/ e = IsADirectoryError inp -> fs (snd r) = fs w)).
Proof.
  cbv zeta. rewrite normalize_unicode_eq.
  destruct (form_of_string f) as [fm|]; [|right; left; eauto].
  destruct (stat (fs w) inp) as [[bs|]| |]; try (right; left; by eauto).
  2: { right; right. do 2 eexists. cbn. repeat split; eauto. }
  destruct (UTF8.decode bs) as [s|].
  2: { right; right. do 2 eexists. cbn. repeat split; eauto. }
  cbv zeta. destruct (writable (fs w) out).
  - destruct (UTF8.encode _) as [b|].
    + left. cbn. repeat split. eauto.
    + right; right. do 2 eexists. cbn. repeat split; eauto.
      intros [H|H]; discriminate.
  - right; right. unfold open_w_error.
    destruct (stat (fs w) out) as [[?|]| |];
      do 2 eexists; cbn; repeat split; eauto.
Qed.

(** X17: called on a directory, [normalize_unicode] passes its check that
    the input exists and fails at opening it: IsADirectoryError, logged as
    an OS error, with no file changed. *)
Theorem normalize_unicode_on_directory pf ucd inp out f w :
  is_Some (form_of_string f) ->
  stat (fs w) inp = Found Directory ->
  let e := IsADirectoryError inp in
  normalize_unicode pf ucd inp out f w = (Raised e, with_call ERROR (OS_error e) w) /\
  fst (path_exists inp w) = Returned true /\
  isinstance e COSError = true /\
  kind_of_message (OS_error e) = Some IOError.
Proof.
  intros [fm Hf] Hs e. repeat split.
  - by rewrite normalize_unicode_eq, Hf, Hs.
  - unfold path_exists, bind, get_fs, ret. by rewrite Hs.
Qed.

Lemma normalize_unicode_on_directory_witness :
  let w := initial_world {[ in_txt := Directory ]} in
  let e := IsADirectoryError in_txt in
  normalize_unicode Posix sample_ucd in_txt out_txt "NFC" w
  = (Raised e, with_call ERROR (OS_error e) w) /\
  fst (path_exists in_txt w) = Returned true /\
  isinstance e COSError = true /\
  kind_of_message (OS_error e) = Some IOError.
Proof.
  intros w.
  apply (normalize_unicode_on_directory Posix sample_ucd in_txt out_txt "NFC" w).
  - vm_compute; eauto.
  - vm_compute; reflexivity.
Defined.

(** *** The codec and the newlines of text mode *)

(** X18: the strict UTF-8 encoder and decoder are inverse to each other:
    a text encodes to some bytes exactly when these bytes decode to the
    text. *)
Theorem utf8_encode_iff_decode s bs :
  UTF8.encode s = Some bs <-> UTF8.decode bs = Some s.
Proof.
  split.
  - intros H. by apply UTF8Facts.decode_encode.
  - intros H. by apply encode_decode.
Qed.

(** X20: what is written to a file in text mode is what is read back
    from it: for a text of scalar values without carriage return and a path
    that can be opened for writing, on POSIX and on Windows. *)
Theorem read_back_what_was_written pf p s w :
  writable (fs w) p = true ->
  Forall text_char s ->
  exists w1,
    write_text pf p s w = (Returned tt, w1) /\
    read_text p w1 = (Returned s, w1).
Proof.
  intros Hw Hs.
  assert (Forall UTF8.scalar s /\ no_CR s) as [Hsc Hcr].
  { split; (eapply Forall_impl; [exact Hs|]); by intros c [? ?]. }
  destruct (encode_scalar (translate_newlines pf s)) as [bs He];
    [by apply translate_newlines_scalar|].
  exists (with_fs (<[location p := RegularFile bs]> (fs w)) w). split.
  - unfold write_text, bind at 1. rewrite open_w_eq, Hw, He.
    unfold bind, get_fs, put_fs. cbn. by rewrite insert_insert_eq.
  - unfold read_text, bind, get_fs. cbn [fs with_fs].
    rewrite (stat_insert_target _ _ _ Hw).
    rewrite (UTF8Facts.decode_encode _ _ He). unfold ret.
    by rewrite universal_translate.
Qed.

Lemma read_back_what_was_written_witness :
  let w := initial_world (one_file a_CR_b) in
  let s := [0x61; 0x0A; 0x1E69; 0x0A] in
  exists w1,
    write_text Windows out_txt s w = (Returned tt, w1) /\
    read_text out_txt w1 = (Returned s, w1).
Proof.
  intros w s.
  apply (read_back_what_was_written Windows out_txt s w).
  - vm_compute; reflexivity.
  - repeat constructor; discriminate.
Defined.

(** X21: the text that text mode returns on read has no carriage return,
    and translating it again changes nothing. *)
Theorem universal_newlines_settles s :
  no_CR (universal_newlines s) /\
  universal_newlines (universal_newlines s) = universal_newlines s.
Proof.
  split; [apply universal_newlines_no_CR|].
  apply universal_newlines_id, universal_newlines_no_CR.
Qed.

(** *** Normalization *)

(** X22: a form applied after a form with the same kind of decomposition
    gives what it gives on the text itself: NFD after NFC is NFD, NFC after
    NFD is NFC, and likewise for NFKC and NFKD; for tables whose
    decompositions are full and whose compositions invert them. *)
Theorem second_form_wins ucd f1 f2 s :
  is_compat f1 = is_compat f2 ->
  decomposition_full ucd (is_compat f2) ->
  composition_inverse ucd (is_compat f2) ->
  normalize ucd f2 (normalize ucd f1 s) = normalize ucd f2 s.
Proof.
  intros Hk Hf Hi. unfold normalize at 1 3. rewrite <- Hk in *.
  by rewrite redecompose.
Qed.

Lemma second_form_wins_witness :
  normalize sample_ucd NFKD (normalize sample_ucd NFKC [0xFB01; 0x1E69; 0xD55C])
  = normalize sample_ucd NFKD [0xFB01; 0x1E69; 0xD55C].
Proof.
  exact (second_form_wins sample_ucd NFKC NFKD _ eq_refl
           (sample_decomposition_full true) (sample_composition_inverse true)).
Defined.

(** X23: NFD and NFKD leave a text alone exactly when it is canonically
    ordered and none of its code points decomposes; for tables whose
    decompositions are full. *)
Theorem decomposed_form_fixed_points ucd f s :
  is_composed f = false ->
  decomposition_full ucd (is_compat f) ->
  normalize ucd f s = s <-> ordered ucd s /\ Forall (stable ucd (is_compat f)) s.
Proof.
  intros Hc Hf. unfold normalize. rewrite Hc. split.
  - intros H. destruct (decomposed_text ucd (is_compat f) s Hf) as [Hd Ho].
    rewrite H in Hd, Ho. by split.
  - intros [Ho Hs]. rewrite decompose_stable by assumption.
    by apply canonical_order_id.
Qed.

Lemma decomposed_form_fixed_points_witness :
  normalize sample_ucd NFD [0x73; 0x323; 0x307] = [0x73; 0x323; 0x307] <->
  ordered sample_ucd [0x73; 0x323; 0x307] /\
  Forall (stable sample_ucd false) [0x73; 0x323; 0x307].
Proof.
  exact (decomposed_form_fixed_points sample_ucd NFD _ eq_refl
           (sample_decomposition_full false)).
Defined.

(** X24: canonical ordering rearranges a text into canonical order: the
    result is ordered and holds the same code points, each as often as the
    text. *)
Theorem canonical_order_sorts ucd s :
  ordered ucd (canonical_order ucd s) /\ canonical_order ucd s ≡ₚ s.
Proof.
  split; [apply canonical_order_ordered|apply canonical_order_Permutation].
Qed.

(** *** Two paths for one file, and a clause no exception reaches *)

(** X25: in [main], [except UnicodeDecodeError] is dead: every
    UnicodeDecodeError is a ValueError and is taken by
    [except ValueError], which stands first, so no run logs the message
    of that clause. *)
Theorem main_UnicodeDecodeError_clause_is_dead pf ucd cl w :
  (forall e, isinstance e CUnicodeDecodeError = true ->
             isinstance e CValueError = true) /\
  exists new,
    calls (snd (run pf ucd cl w)) = (calls w ++ new)%list /\
    Forall (fun r => forall e, snd r <> Main_UnicodeDecodeError e) new.
Proof.
  split; [intros e; by destruct e|].
  rewrite run_eq.
  destruct (form_of_string _) as [fm|];
    [|exists []; split; [by rewrite app_nil_r|constructor]].
  destruct (level_of_string _) as [lv|];
    [|exists []; split; [by rewrite app_nil_r|constructor]].
  cbv zeta.
  destruct (stat (fs w) (cl_input_file cl)) as [[bs|]| |].
  2-4: eexists [_]; split; [reflexivity|]; by repeat constructor.
  destruct (UTF8.decode bs) as [s|].
  2: { eexists [_; _]. cbn [snd calls with_call with_level].
       split; [by rewrite <- app_assoc|]. by repeat constructor. }
  destruct (writable (fs w) (cl_output_file cl)).
  - destruct (UTF8.encode _) as [out|].
    + eexists [_]. split; [reflexivity|]. by repeat constructor.
    + eexists [_; _]. cbn [snd calls with_call with_level with_fs].
      split; [by rewrite <- app_assoc|]. by repeat constructor.
  - eexists [_; _]. cbn [snd calls with_call with_level].
    split; [by rewrite <- app_assoc|].
    destruct (isinstance _ _); by repeat constructor.
Qed.

(** X26: an output path that names the input file in another way makes
    the run rewrite its input: when both paths name the same place, the
    input is a regular file of valid UTF-8 and the output can be opened,
    the run ends with status 0 and the input path holds the normalized
    text; for tables that produce scalar values only. *)
Theorem aliased_output_rewrites_input pf ucd cl w bs s fm :
  closed ucd text_char ->
  options_valid cl ->
  form_of_string (default "NFC" (cl_form cl)) = Some fm ->
  location (cl_output_file cl) = location (cl_input_file cl) ->
  stat (fs w) (cl_input_file cl) = Found (RegularFile bs) ->
  UTF8.decode bs = Some s ->
  writable (fs w) (cl_output_file cl) = true ->
  exists w' out,
    run pf ucd cl w = (0, w') /\
    UTF8.encode (translate_newlines pf (normalize ucd fm (universal_newlines s)))
    = Some out /\
    stat (fs w') (cl_input_file cl) = Found (RegularFile out).
Proof.
  intros Hc [_ [lv Hl]] Hf Hloc Hs Hd Hw.
  destruct (encode_normalized pf ucd fm bs s Hc Hd) as [out He].
  eexists. exists out. split; [by eapply run_succeeds|].
  split; [exact He|]. cbn [fs with_call with_fs]. rewrite Hloc.
  apply stat_insert_target. unfold writable. by rewrite Hs.
Qed.

Lemma aliased_output_rewrites_input_witness :
  let cl := cli in_txt ["data"; ".."; "in.txt"] None in
  let w := initial_world (<[ ["data"] := Directory ]> (one_file a_CR_b)) in
  cl_output_file cl <> cl_input_file cl /\
  exists w' out,
    run Posix sample_ucd cl w = (0, w') /\
    UTF8.encode (translate_newlines Posix
      (normalize sample_ucd NFC (universal_newlines [0x61; 0x0D; 0x62])))
    = Some out /\
    stat (fs w') (cl_input_file cl) = Found (RegularFile out).
Proof.
  intros cl w. split; [discriminate|].
  apply (aliased_output_rewrites_input Posix sample_ucd cl w a_CR_b
           [0x61; 0x0D; 0x62] NFC sample_closed).
  - split; vm_compute; eauto.
  - reflexivity.
  - vm_compute; reflexivity.
  - vm_compute; reflexivity.
  - vm_compute; reflexivity.
  - vm_compute; reflexivity.
Defined.

End Extras.
